(** * AI-Council: the council orchestrator (src/council.py)

    A shallow embedding of [CouncilOrchestrator]: the parallel broadcast
    (step 2), the sequential multi-round debate (step 2.5), synthesis and the
    two decision strategies (steps 3 and 4), the tagged debate, and the
    group-chat rounds with their SKIP protocol.

    Conventions of the embedding.
    - A Python [str] is a [string] holding its UTF-8 encoding; lengths and
      slices count characters, [strip] removes Python's whitespace
      characters, and the case mappings are Python's wherever their result
      holds an ASCII character (the comparisons of the source are with
      ASCII text: "SKIP", the closing signals).
    - A [dict] whose iteration order the code relies on is an insertion-ordered
      association list ([odict]); a [dict] that is only looked up by key is a
      [gmap string _].
    - The persona and synthesis clients are remote calls: they are parameters
      of the development. A persona call either returns a text or raises an
      [Exception] of which the code uses [str(e)]; the synthesis call
      returns a dictionary or raises. A call of either kind ends.
    - The thread pool is modelled by what the collecting thread can
      observe: the order in which futures complete (step 2 iterates over
      [as_completed]), and which futures are done when the wait on them ends
      (a round reads each future with a 60-unit timeout). Both are inputs.
    - [verbose] printing, [time.time()] stamps and elapsed times are output
      only and are left out, but for the error texts that a round builds
      for its failed calls, which it does nothing with but print them. *)

From Stdlib Require Import Ascii String QArith.
From Stdlib Require DecimalString.
From stdpp Require Import base list strings gmap.

Local Open Scope nat_scope.
#[local] Set Warnings "-clear-no-such-hyp".

(** ** Python strings *)

Module Str.

(** ["\n"] and the double quote, which string literals here cannot hold. *)
Definition nl : string := String (ascii_of_nat 10) "".
Definition dq : string := String (ascii_of_nat 34) "".

Definition between (lo hi : nat) (c : ascii) : bool :=
  let n := nat_of_ascii c in (lo <=? n) && (n <=? hi).

(** *** Characters

    A [str] is a sequence of code points; a [string] holds it in UTF-8, one
    to four bytes per code point. *)

Definition byte (n : N) : string := String (ascii_of_N n) "".

Definition utf8 (code_point : N) : string :=
  (if code_point <? 0x80 then byte code_point
   else if code_point <? 0x800 then
     byte (0xC0 + code_point / 0x40) +:+ byte (0x80 + code_point mod 0x40)
   else if code_point <? 0x10000 then
     byte (0xE0 + code_point / 0x1000)
     +:+ byte (0x80 + (code_point / 0x40) mod 0x40)
     +:+ byte (0x80 + code_point mod 0x40)
   else
     byte (0xF0 + code_point / 0x40000)
     +:+ byte (0x80 + (code_point / 0x1000) mod 0x40)
     +:+ byte (0x80 + (code_point / 0x40) mod 0x40)
     +:+ byte (0x80 + code_point mod 0x40))%N.

Definition encode (code_points : list N) : string :=
  String.concat "" (List.map utf8 code_points).

(** The bytes 10xxxxxx, which continue a character. *)
Definition is_continuation (c : ascii) : bool := between 128 191 c.

(** [len(s)]: the number of characters, that is of bytes that start one. *)
Fixpoint len (s : string) : nat :=
  match s with
  | EmptyString => 0
  | String c s' => if is_continuation c then len s' else S (len s')
  end.

(** [s[:n]]: the first [n] characters, each with all its bytes. *)
Fixpoint upto (n : nat) (s : string) : string :=
  match s with
  | EmptyString => EmptyString
  | String c s' =>
      if is_continuation c then String c (upto n s')
      else match n with
           | O => EmptyString
           | S n' => String c (upto n' s')
           end
  end.

(** *** Whitespace

    The characters that [str.strip] removes: those for which [str.isspace]
    holds. *)
Definition whitespace : list string :=
  Eval vm_compute in
    List.map utf8
      [0x09; 0x0A; 0x0B; 0x0C; 0x0D; 0x1C; 0x1D; 0x1E; 0x1F; 0x20;
       0x85; 0xA0; 0x1680;
       0x2000; 0x2001; 0x2002; 0x2003; 0x2004; 0x2005; 0x2006; 0x2007;
       0x2008; 0x2009; 0x200A;
       0x2028; 0x2029; 0x202F; 0x205F; 0x3000]%N.

(** The whitespace character that a text starts with. *)
Definition space_at_head (s : string) : option string :=
  List.find (fun w => String.prefix w s) whitespace.

(** [s.lstrip()]; [skip] counts the bytes left of a character that is being
    removed. *)
Fixpoint lstrip_from (skip : nat) (s : string) : string :=
  match s with
  | EmptyString => EmptyString
  | String _ s' =>
      match skip with
      | S skip' => lstrip_from skip' s'
      | O =>
          match space_at_head s with
          | Some w => lstrip_from (String.length w - 1) s'
          | None => s
          end
      end
  end.

Definition lstrip (s : string) : string := lstrip_from 0 s.

(** A text of whitespace only. *)
Definition blank (s : string) : bool :=
  match lstrip s with
  | EmptyString => true
  | String _ _ => false
  end.

(** [s.rstrip()]: the text up to the point from which all is whitespace. *)
Fixpoint rstrip (s : string) : string :=
  match s with
  | EmptyString => EmptyString
  | String c s' => if blank s then EmptyString else String c (rstrip s')
  end.

(** [s.strip()] *)
Definition strip (s : string) : string := rstrip (lstrip s).

(** *** Letter case

    [str.upper] and [str.lower] map each character to its upper-case or
    lower-case form. The forms are given for every character whose form
    holds an ASCII character: the ASCII letters, and the characters of the
    two tables. The form of any other character holds no ASCII character;
    it is not spelled out, the character is left in place. So a test that
    compares the result with ASCII text, which is all the source does with
    it, has Python's answer. *)

Definition to_upper (c : ascii) : ascii :=
  if between 97 122 c then ascii_of_nat (nat_of_ascii c - 32) else c.

Definition to_lower (c : ascii) : ascii :=
  if between 65 90 c then ascii_of_nat (nat_of_ascii c + 32) else c.

(** The non-ASCII characters whose upper-case form holds an ASCII letter,
    with that form. *)
Definition upper_forms : list (string * string) :=
  Eval vm_compute in
    List.map (fun entry : N * list N => (utf8 entry.1, encode entry.2))
      [(0xDF, [0x53; 0x53]);
       (0x131, [0x49]);
       (0x149, [0x2BC; 0x4E]);
       (0x17F, [0x53]);
       (0x1F0, [0x4A; 0x30C]);
       (0x1E96, [0x48; 0x331]);
       (0x1E97, [0x54; 0x308]);
       (0x1E98, [0x57; 0x30A]);
       (0x1E99, [0x59; 0x30A]);
       (0x1E9A, [0x41; 0x2BE]);
       (0xFB00, [0x46; 0x46]);
       (0xFB01, [0x46; 0x49]);
       (0xFB02, [0x46; 0x4C]);
       (0xFB03, [0x46; 0x46; 0x49]);
       (0xFB04, [0x46; 0x46; 0x4C]);
       (0xFB05, [0x53; 0x54]);
       (0xFB06, [0x53; 0x54])]%N.

(** The same for the lower-case forms: the capital I with a dot and the
    Kelvin sign. *)
Definition lower_forms : list (string * string) :=
  Eval vm_compute in
    List.map (fun entry : N * list N => (utf8 entry.1, encode entry.2))
      [(0x130, [0x69; 0x307]);
       (0x212A, [0x6B])]%N.

(** The entry of a table for the character that a text starts with. *)
Definition form_at_head (forms : list (string * string)) (s : string)
  : option (string * string) :=
  List.find (fun entry => String.prefix entry.1 s) forms.

(** Character by character: the form from the table, else the byte mapped by
    [f]; [skip] counts the bytes left of a character already replaced. *)
Fixpoint recase (forms : list (string * string)) (f : ascii -> ascii)
    (skip : nat) (s : string) : string :=
  match s with
  | EmptyString => EmptyString
  | String c s' =>
      match skip with
      | S skip' => recase forms f skip' s'
      | O =>
          match form_at_head forms s with
          | Some entry =>
              entry.2 +:+ recase forms f (String.length entry.1 - 1) s'
          | None => String (f c) (recase forms f 0 s')
          end
      end
  end.

(** [s.upper()], [s.lower()] *)
Definition upper (s : string) : string := recase upper_forms to_upper 0 s.
Definition lower (s : string) : string := recase lower_forms to_lower 0 s.

(** [s.startswith(p)] *)
Definition startswith (s p : string) : bool := String.prefix p s.

(** [needle in hay] *)
Fixpoint contains (needle hay : string) : bool :=
  String.prefix needle hay ||
  match hay with
  | EmptyString => false
  | String _ hay' => contains needle hay'
  end.

(** [sep.join(parts)] *)
Definition join (sep : string) (parts : list string) : string :=
  String.concat sep parts.

(** [l[-n:] if len(l) > n else l] *)
Definition last_n {A} (n : nat) (l : list A) : list A :=
  if n <? length l then drop (length l - n) l else l.

End Str.

(** [response[:200] + "..." if len(response) > 200 else response]: the
    conditional expression binds weakest, so the ellipsis belongs to the
    truncated branch only. *)
Definition preview (response : string) : string :=
  if 200 <? Str.len response
  then Str.upto 200 response +:+ "..."
  else response.

(** [response.strip().upper() == "SKIP" or
     response.strip().upper().startswith("SKIP")] *)
Definition is_skip (response : string) : bool :=
  bool_decide (Str.upper (Str.strip response) = "SKIP")
  || Str.startswith (Str.upper (Str.strip response)) "SKIP".

(** ** Insertion-ordered dictionaries *)

Module OD.

Definition odict (V : Type) : Type := list (string * V).

(** [d.get(k)] *)
Fixpoint get {V} (d : odict V) (k : string) : option V :=
  match d with
  | [] => None
  | (k', v) :: d' => if decide (k' = k) then Some v else get d' k
  end.

(** [d[k] = v]: an existing key keeps its place, a new one goes last. *)
Fixpoint set {V} (d : odict V) (k : string) (v : V) : odict V :=
  match d with
  | [] => [(k, v)]
  | (k', v') :: d' =>
      if decide (k' = k) then (k, v) :: d' else (k', v') :: set d' k v
  end.

(** [{**d1, **d2}] *)
Definition update {V} (d1 d2 : odict V) : odict V :=
  foldl (fun d kv => set d kv.1 kv.2) d1 d2.

Definition keys {V} (d : odict V) : list string := d.*1.

End OD.

Abbreviation odict := OD.odict.

(** ** Configuration (src/config.py) and the persona table *)

(** The four agent objects held by the orchestrator:
    [self.visionary], [self.strategist], [self.operator], [self.risk_analyst]. *)
Inductive persona : Type := visionary | strategist | operator | risk_analyst.

Definition AGENT_NAME_MAPPING : odict string :=
  [("Visionary", "Elon"); ("Strategist", "Sam");
   ("Operator", "Sheryl"); ("Risk Analyst", "Ray")].

Definition AGENT_WEIGHTS : odict Q :=
  [("Visionary", 35 # 100); ("Strategist", 30 # 100);
   ("Operator", 20 # 100); ("Risk Analyst", 15 # 100)]%Q.

(** [Config.USE_WEIGHTED_MODEL], at its default (the environment variable
    unset). *)
Definition USE_WEIGHTED_MODEL : bool := true.

(** The [agents] table that step 2.5, the tagged debate and the rounds build. *)
Definition agents : odict persona :=
  [("Elon", visionary); ("Sam", strategist);
   ("Sheryl", operator); ("Ray", risk_analyst)].

(** The futures of step 2, by role, in submission order. *)
Definition role_agents : odict persona :=
  [("Visionary", visionary); ("Strategist", strategist);
   ("Operator", operator); ("Risk Analyst", risk_analyst)].

Definition role_names : list string := OD.keys AGENT_NAME_MAPPING.
Definition alias_names : list string := AGENT_NAME_MAPPING.*2.

(** [mapping.get(k, k)] on the role-to-alias table. *)
Definition display_name (k : string) : string :=
  default k (OD.get AGENT_NAME_MAPPING k).

(** ** Values exchanged with the collaborators *)

(** What a remote call does: it returns a text, or raises an exception [e]
    of which the code only uses [str(e)]. *)
Inductive outcome : Type :=
| Returned (text : string)
| Raised (err : string).

(** An exception, as the handlers of the code tell them apart: an
    [Exception], which [except Exception] catches, or another
    [BaseException] ([KeyboardInterrupt], [SystemExit]), which it lets
    through. Of either the code only uses [str(e)]. *)
Inductive exn : Type :=
| Exception (msg : string)
| Interrupt (msg : string).

(** An operation of the code that may raise. *)
Inductive raising (A : Type) : Type :=
| Ok (a : A)
| Raise (e : exn).

Arguments Ok {A} a.
Arguments Raise {A} e.

(** One invocation of [agent.chat_response(user_message,
    conversation_context, agent_name)]. The log of the calls made so far is
    what a persona's behaviour may depend on. *)
Record call : Type := Call {
  callee : persona;
  user_message : string;
  conversation_context : string;
  agent_name : string
}.

(** A transcript entry [{"agent": .., "message": .., "timestamp": ..}]. *)
Record chat_message : Type := ChatMessage {
  agent : string;
  message : string
}.

(** [f"{agent}: {message}"], a line of the conversation history. *)
Definition line (name text : string) : string := name +:+ ": " +:+ text.
Definition line_of (m : chat_message) : string := line (agent m) (message m).

(** The values of a synthesis result ([Dict[str, Any]]): a text or a list of
    texts. *)
Inductive value : Type :=
| VStr (s : string)
| VList (items : list string).

Record weight_entry : Type := WeightEntry {
  weight : Q;
  response_preview : string
}.

(** The recommendation dictionary of step 4. The keys that only one strategy
    writes are optional; [previews] is the key ["agent_responses"] of the
    majority record. *)
Record decision : Type := Decision {
  method : string;
  weights_used : option (gmap string Q);
  synthesis_summary : value;
  recommended_options : value;
  weight_breakdown : option (gmap string weight_entry);
  previews : option (gmap string string);
  key_agreements : value;
  key_conflicts : value;
  identified_blind_spots : value
}.

(** [CouncilState]. [debate_rounds], [metadata] and [messages] are created
    empty and never touched again; they are left out. [group_chat] and
    [conversation_history] are keys added later, absent at creation. *)
Record CouncilState : Type := State {
  problem_statement : string;
  agent_responses : gmap string string;
  synthesis_output : option (gmap string value);
  final_decision : option decision;
  current_step : Q;
  group_chat : option (list chat_message);
  conversation_history : option (list string)
}.

Record CouncilOrchestrator : Type := Orchestrator {
  use_weighted_model : bool;
  weights : odict Q
}.

(** [CouncilOrchestrator.__init__]; [if custom_weights:] is false for [None]
    and for the empty dictionary. *)
Definition init (use_weighted : option bool) (custom_weights : option (odict Q))
  : CouncilOrchestrator :=
  {| use_weighted_model := default USE_WEIGHTED_MODEL use_weighted;
     weights :=
       match custom_weights with
       | Some (kv :: more) => OD.update AGENT_WEIGHTS (kv :: more)
       | _ => AGENT_WEIGHTS
       end |}.

(** [d.get(a) or d.get(b, "")]: the empty text is falsy. *)
Definition get_or (d : gmap string string) (a b : string) : string :=
  match d !! a with
  | Some r => if bool_decide (r = "") then default "" (d !! b) else r
  | None => default "" (d !! b)
  end.

(** ** The orchestrator's operations *)

Definition set_step (step : Q) (state : CouncilState) : CouncilState :=
  State (problem_statement state) (agent_responses state)
        (synthesis_output state) (final_decision state) step
        (group_chat state) (conversation_history state).

Definition set_agent_responses (r : gmap string string) (state : CouncilState)
  : CouncilState :=
  State (problem_statement state) r (synthesis_output state)
        (final_decision state) (current_step state)
        (group_chat state) (conversation_history state).

Definition set_synthesis_output (o : gmap string value) (state : CouncilState)
  : CouncilState :=
  State (problem_statement state) (agent_responses state) (Some o)
        (final_decision state) (current_step state)
        (group_chat state) (conversation_history state).

Definition set_final_decision (d : decision) (state : CouncilState)
  : CouncilState :=
  State (problem_statement state) (agent_responses state)
        (synthesis_output state) (Some d) (current_step state)
        (group_chat state) (conversation_history state).

Definition set_group_chat (g : list chat_message) (state : CouncilState)
  : CouncilState :=
  State (problem_statement state) (agent_responses state)
        (synthesis_output state) (final_decision state) (current_step state)
        (Some g) (conversation_history state).

Definition set_conversation_history (h : list string) (state : CouncilState)
  : CouncilState :=
  State (problem_statement state) (agent_responses state)
        (synthesis_output state) (final_decision state) (current_step state)
        (group_chat state) (Some h).

(** [step_1_broadcast] *)
Definition step_1_broadcast (problem : string) : CouncilState :=
  {| problem_statement := problem;
     agent_responses := ∅;
     synthesis_output := None;
     final_decision := None;
     current_step := 1;
     group_chat := None;
     conversation_history := None |}.

(** [f"Error: {str(e)}"] *)
Definition error_text (err : string) : string := "Error: " +:+ err.

(** The text that stands for a call in step 2 and in step 2.5: its result, or
    the error text of the exception it raised. *)
Definition text_of (o : outcome) : string :=
  match o with
  | Returned result => result
  | Raised err => error_text err
  end.

(** The six closing signals of the tagged debate. *)
Definition closing_signals : list string :=
  ["agree"; "sounds good"; "makes sense"; "resolved";
   "i think we're done"; "that works"].

(** [any(signal in response for response in last_responses
         for signal in closing_signals)], with
    [last_responses = [msg["message"].lower() for msg in exchange_messages]]. *)
Definition closing (exchange_messages : list chat_message) : bool :=
  existsb (fun response =>
             existsb (fun signal => Str.contains signal response)
                     closing_signals)
          (List.map (fun msg => Str.lower (message msg)) exchange_messages).

Definition max_exchanges : nat := 3.

(** [str(n)] for the exchange number shown in a prompt. *)
Definition str_of_nat (n : nat) : string :=
  DecimalString.NilEmpty.string_of_uint (Nat.to_uint n).

(** The prompt of a tagged-debate exchange. *)
Definition debate_prompt (exchange : nat) (agent_name user_message
                          conversation_context : string) : string :=
  if exchange =? 0
  then "You are " +:+ agent_name
       +:+ " in a focused debate/discussion. The user asked: "
       +:+ Str.dq +:+ user_message +:+ Str.dq +:+ Str.nl +:+ Str.nl
       +:+ "RECENT CONVERSATION:" +:+ Str.nl
       +:+ conversation_context +:+ Str.nl +:+ Str.nl
       +:+ "Respond to the user's request. This is exchange 1 of up to 3. Try to make progress toward closing the topic. Be direct and substantive."
  else "You are " +:+ agent_name
       +:+ " in a focused debate/discussion. " +:+ Str.nl +:+ Str.nl
       +:+ "RECENT CONVERSATION:" +:+ Str.nl
       +:+ conversation_context +:+ Str.nl +:+ Str.nl
       +:+ "This is exchange " +:+ str_of_nat (exchange + 1)
       +:+ " of up to 3. Respond to what others said. Try to move toward closing the topic - agree, disagree, or propose a resolution. If the topic feels resolved, you can acknowledge that.".

(** The prompt of step 2.5. *)
Definition conversation_prompt (conversation_context : string) : string :=
  "The group is discussing:" +:+ Str.nl +:+ Str.nl
  +:+ conversation_context +:+ Str.nl +:+ Str.nl
  +:+ "What do you think? Respond naturally to the conversation.".

(** The prompt of a round after the first. *)
Definition skip_prompt (conversation_context : string) : string :=
  "The group is discussing:" +:+ Str.nl +:+ Str.nl
  +:+ conversation_context +:+ Str.nl +:+ Str.nl
  +:+ "Do you have something to add? Only respond if you have something relevant to say. If you don't have anything to add, respond with just 'SKIP'.".

(** The prompt of a first round: the last history entry that starts with
    ["You:"], else the first entry, else the empty text. *)
Definition first_round_prompt (conversation_history : list string) : string :=
  let user_messages :=
    List.filter (fun msg => Str.startswith msg "You:") conversation_history in
  match last user_messages with
  | Some msg => msg
  | None => default "" (head conversation_history)
  end.

(** [conversation_context]: the last ten lines joined by newlines. *)
Definition context_of (history : list string) : string :=
  Str.join Str.nl (Str.last_n 10 history).

(** The previews of the majority record: a comprehension over the items. *)
Definition majority_previews (agent_responses : gmap string string)
  : gmap string string :=
  preview <$> agent_responses.

(** [_majority_voting] *)
Definition _majority_voting (agent_responses : gmap string string)
    (synthesis_output : gmap string value) : decision :=
  let options := default (VList []) (synthesis_output !! "final_options") in
  {| method := "majority_voting";
     weights_used := None;
     synthesis_summary := default (VStr "") (synthesis_output !! "summary");
     recommended_options := options;
     weight_breakdown := None;
     previews := Some (majority_previews agent_responses);
     key_agreements := default (VList []) (synthesis_output !! "agreements");
     key_conflicts := default (VList []) (synthesis_output !! "conflicts");
     identified_blind_spots :=
       default (VList []) (synthesis_output !! "blind_spots") |}.

(** One iteration of the loop over [self.weights.items()]. *)
Definition breakdown_step (agent_responses : gmap string string)
    (weight_breakdown : gmap string weight_entry) (item : string * Q)
  : gmap string weight_entry :=
  let role_name := item.1 in
  let normal_name := display_name role_name in
  let response := get_or agent_responses role_name normal_name in
  <[normal_name := {| weight := item.2;
                      response_preview := preview response |}]>
    weight_breakdown.

(** [{role_to_name.get(k, k): v for k, v in self.weights.items()}] *)
Definition renamed_weights (weights : odict Q) : gmap string Q :=
  foldl (fun m kv => <[display_name kv.1 := kv.2]> m) ∅ weights.

(** [_weighted_decision] *)
Definition _weighted_decision (self : CouncilOrchestrator)
    (agent_responses : gmap string string)
    (synthesis_output : gmap string value) : decision :=
  let options := default (VList []) (synthesis_output !! "final_options") in
  let weight_breakdown :=
    foldl (breakdown_step agent_responses) ∅ (weights self) in
  {| method := "weighted_model";
     weights_used := Some (renamed_weights (weights self));
     synthesis_summary := default (VStr "") (synthesis_output !! "summary");
     recommended_options := options;
     weight_breakdown := Some weight_breakdown;
     previews := None;
     key_agreements := default (VList []) (synthesis_output !! "agreements");
     key_conflicts := default (VList []) (synthesis_output !! "conflicts");
     identified_blind_spots :=
       default (VList []) (synthesis_output !! "blind_spots") |}.

(** A future of step 2: [fut_id] is the object's identity (the order of
    submission), [fut_outcome] what [future.result()] does once it is done. *)
Record future : Type := Future {
  fut_id : nat;
  fut_outcome : outcome
}.

(** The state of a sequential conversation: the history lines, the messages
    produced so far, and the log of the calls made to the personas. *)
Record talk : Type := Talk {
  history : list string;
  said : list chat_message;
  calls : list call
}.

Section Protocol.

(** [agent.analyze(problem)] *)
Variable analyze : persona -> string -> outcome.

(** [agent.chat_response(user_message, conversation_context, agent_name)],
    given the log of all earlier calls. *)
Variable chat_response :
  list call -> persona -> string -> string -> string -> outcome.

(** [self.synthesis.synthesize(problem, role_responses)]: the dictionary it
    returns, or the exception that the call to the model raises, which
    [synthesize] does not handle. *)
Variable synthesize :
  string -> odict string -> raising (gmap string value).

(** *** Step 2 *)

Definition submit_all (problem : string) : odict future :=
  [("Visionary", Future 0 (analyze visionary problem));
   ("Strategist", Future 1 (analyze strategist problem));
   ("Operator", Future 2 (analyze operator problem));
   ("Risk Analyst", Future 3 (analyze risk_analyst problem))].

(** The search for the role of a completed future ([if f == future]). *)
Definition role_of (futures : odict future) (f : future) : option string :=
  fst <$> List.find (fun item => bool_decide (fut_id item.2 = fut_id f))
                    futures.

(** The body of the [as_completed] loop: both keys get the same value. *)
Definition record_response (futures : odict future)
    (agent_responses : gmap string string) (f : future)
  : gmap string string :=
  match role_of futures f with
  | Some agent_role =>
      if bool_decide (agent_role = "") then agent_responses
      else
        let agent_display_name := display_name agent_role in
        let stored := text_of (fut_outcome f) in
        <[agent_role := stored]>
          (<[agent_display_name := stored]> agent_responses)
  | None => agent_responses
  end.

(** [step_2_parallel_responses]. [as_completed] is the order in which the
    executor hands the futures back. *)
Definition step_2_parallel_responses
    (as_completed : list future -> list future) (state : CouncilState)
  : CouncilState :=
  let futures := submit_all (problem_statement state) in
  let agent_responses :=
    foldl (record_response futures) ∅ (as_completed (futures.*2)) in
  set_step 2 (set_agent_responses agent_responses state).

(** *** Step 2.5 *)

(** [initial_responses]: the role-keyed responses, under the aliases. *)
Definition initial_responses (agent_responses : gmap string string)
  : odict string :=
  foldl (fun d item =>
           match agent_responses !! item.1 with
           | Some response => OD.set d item.2 response
           | None => d
           end) [] AGENT_NAME_MAPPING.

(** The history that step 2.5 starts from: one line per initial response. *)
Definition initial_lines (agent_responses : gmap string string)
  : list string :=
  List.map (fun item => line item.1 item.2)
           (initial_responses agent_responses).

(** One persona's turn in a debate round: the context is taken from the
    history as it is when the turn starts. *)
Definition debate_turn (t : talk) (item : string * persona) : talk :=
  let recent_messages := Str.last_n 10 (history t) in
  let conversation_context := Str.join Str.nl recent_messages in
  let prompt := conversation_prompt conversation_context in
  let text :=
    text_of (chat_response (calls t) item.2 prompt conversation_context
                           item.1) in
  {| history := history t ++ [line item.1 text];
     said := said t ++ [ChatMessage item.1 text];
     calls := calls t ++ [Call item.2 prompt conversation_context item.1] |}.

Definition debate_round (t : talk) : talk := foldl debate_turn t agents.

(** The conversation of step 2.5: [for round_num in range(rounds)]. *)
Definition debate (rounds : Z) (agent_responses : gmap string string)
    (log : list call) : talk :=
  Nat.iter (Z.to_nat rounds) debate_round
           {| history := initial_lines agent_responses;
              said := []; calls := log |}.

(** [step_2_5_debate] *)
Definition step_2_5_debate (state : CouncilState) (rounds : Z)
    (log : list call) : CouncilState * list call :=
  let t := debate rounds (agent_responses state) log in
  (set_step (5 # 2)
     (set_group_chat (default [] (group_chat state) ++ said t) state),
   calls t).

(** *** Steps 3 and 4 *)

Definition role_responses (agent_responses : gmap string string)
  : odict string :=
  foldl (fun d item => OD.set d item.1 (get_or agent_responses item.1 item.2))
        [] AGENT_NAME_MAPPING.

(** [step_3_synthesis]: the call to the synthesis client is not guarded, so
    what it raises leaves the step. *)
Definition step_3_synthesis (state : CouncilState) : raising CouncilState :=
  match synthesize (problem_statement state)
                   (role_responses (agent_responses state)) with
  | Ok output => Ok (set_step 3 (set_synthesis_output output state))
  | Raise e => Raise e
  end.

(** [step_4_final_decision]; without a synthesis output the [.get] on
    [None] raises an [AttributeError]. *)
Definition step_4_final_decision (self : CouncilOrchestrator)
    (state : CouncilState) : raising CouncilState :=
  match synthesis_output state with
  | Some output =>
      let decision :=
        if use_weighted_model self
        then _weighted_decision self (agent_responses state) output
        else _majority_voting (agent_responses state) output in
      Ok (set_step 4 (set_final_decision decision state))
  | None => Raise (Exception "'NoneType' object has no attribute 'get'")
  end.

(** [run_council]: the state it returns, or the exception that leaves it
    (it has no handler of its own), and the log. *)
Definition run_council (self : CouncilOrchestrator)
    (as_completed : list future -> list future) (problem : string)
    (log : list call) : raising CouncilState * list call :=
  let state := step_1_broadcast problem in
  let state := step_2_parallel_responses as_completed state in
  let '(state, log) := step_2_5_debate state 2 log in
  match step_3_synthesis state with
  | Ok state => (step_4_final_decision self state, log)
  | Raise e => (Raise e, log)
  end.

(** *** The tagged debate *)

(** [{name: agents[name] for name in tagged_agents if name in agents}] *)
Definition participating (tagged_agents : list string) : odict persona :=
  foldl (fun d name =>
           match OD.get agents name with
           | Some a => OD.set d name a
           | None => d
           end) [] tagged_agents.

(** One persona's answer within an exchange; a raised exception leaves the
    history and the messages as they are. *)
Definition exchange_turn (exchange : nat) (user_message
    conversation_context : string) (t : talk) (item : string * persona)
  : talk :=
  let prompt :=
    debate_prompt exchange item.1 user_message conversation_context in
  let c := Call item.2 prompt conversation_context item.1 in
  match chat_response (calls t) item.2 prompt conversation_context item.1 with
  | Returned response =>
      {| history := history t ++ [line item.1 response];
         said := said t ++ [ChatMessage item.1 response];
         calls := calls t ++ [c] |}
  | Raised _ =>
      {| history := history t; said := said t; calls := calls t ++ [c] |}
  end.

(** One exchange: the context is computed once, before the personas. *)
Definition run_exchange (participants : odict persona)
    (user_message : string) (exchange : nat) (debate_history : list string)
    (log : list call) : talk :=
  let conversation_context := context_of debate_history in
  foldl (exchange_turn exchange user_message conversation_context)
        {| history := debate_history; said := []; calls := log |}
        participants.

(** [for exchange in range(max_exchanges)] with its [break]. The messages
    are kept per exchange; [debate_messages] is their concatenation. *)
Fixpoint debate_loop (participants : odict persona) (user_message : string)
    (exchanges : list nat) (debate_history : list string) (log : list call)
  : list (list chat_message) * list string * list call :=
  match exchanges with
  | [] => ([], debate_history, log)
  | exchange :: later =>
      let t :=
        run_exchange participants user_message exchange debate_history log in
      let exchange_messages := said t in
      if bool_decide (exchange_messages <> []) && closing exchange_messages
      then ([exchange_messages], history t, calls t)
      else
        let '(more, h, l) :=
          debate_loop participants user_message later (history t) (calls t)
        in (exchange_messages :: more, h, l)
  end.

Definition debate_exchanges (tagged_agents : list string)
    (user_message : string) (conversation_history : list string)
    (log : list call) : list (list chat_message) * list string * list call :=
  debate_loop (participating tagged_agents) user_message
              (seq 0 max_exchanges)
              (conversation_history ++ ["You: " +:+ user_message]) log.

(** [run_tagged_debate]: the messages returned, the caller's history after
    the call, and the log. *)
Definition run_tagged_debate (tagged_agents : list string)
    (user_message : string) (conversation_history : list string)
    (log : list call) : list chat_message * list string * list call :=
  match participating tagged_agents with
  | [] => ([], conversation_history, log)
  | _ :: _ =>
      let '(exchanges, _, log') :=
        debate_exchanges tagged_agents user_message conversation_history log
      in
      let debate_messages := concat exchanges in
      (debate_messages,
       conversation_history ++ List.map line_of debate_messages,
       log')
  end.

(** *** One round of group chat *)

(** The submission loop: every persona is handed the same prompt and the
    same context, both computed from the history before the round. *)
Definition submit_turn (is_first_round : bool)
    (conversation_history : list string) (conversation_context : string)
    (acc : odict outcome * list call) (item : string * persona)
  : odict outcome * list call :=
  let prompt :=
    if is_first_round then first_round_prompt conversation_history
    else skip_prompt conversation_context in
  (OD.set acc.1 item.1
          (chat_response acc.2 item.2 prompt conversation_context item.1),
   acc.2 ++ [Call item.2 prompt conversation_context item.1]).

Definition submit_round (is_first_round : bool)
    (conversation_history : list string) (log : list call)
  : odict outcome * list call :=
  foldl (submit_turn is_first_round conversation_history
                     (context_of conversation_history))
        ([], log) agents.

(** The worker pool: the calls named by [schedule] finish, in that order,
    while the collector waits; a call that is not named is not done when
    the 60-unit wait on its future ends. The pool is left only when all
    calls have ended, so the round returns after such a call has ended too,
    and what that call returns is dropped. *)
Definition finished (futures : odict outcome) (schedule : list string)
  : gmap string outcome :=
  foldl (fun done name =>
           match OD.get futures name with
           | Some o => <[name := o]> done
           | None => done
           end) ∅ schedule.

(** [future.result(timeout=60)]: the result, the call's exception, or a
    [TimeoutError], whose message is empty. *)
Definition future_result (done : gmap string outcome) (name : string)
  : outcome :=
  default (Raised "") (done !! name).

(** The body of the collection loop. What the loop builds: the new
    messages, the history, and the [error_msg] texts of the [except] branch,
    each with the name of the persona it was built for; these texts are
    printed in verbose mode and kept nowhere. A SKIP reply adds nothing. *)
Definition collect (done : gmap string outcome)
    (acc : list chat_message * list string * list (string * string))
    (name : string)
  : list chat_message * list string * list (string * string) :=
  match future_result done name with
  | Returned response =>
      if is_skip response then acc
      else (acc.1.1 ++ [ChatMessage name response],
            acc.1.2 ++ [line name response],
            acc.2)
  | Raised err => (acc.1, acc.2 ++ [(name, error_text err)])
  end.

(** The two loops of [run_one_round]; [scheduler] gives the completion
    order of the calls just submitted. *)
Definition collect_round (scheduler : list call -> list string)
    (conversation_history : list string) (is_first_round : bool)
    (log : list call)
  : list chat_message * list string * list (string * string) * list call :=
  let '(futures, log') :=
    submit_round is_first_round conversation_history log in
  let done := finished futures (scheduler log') in
  (foldl (collect done) ([], conversation_history, []) (OD.keys futures),
   log').

(** [run_one_round]: the new messages, the caller's history after the
    round, and the log. *)
Definition run_one_round (scheduler : list call -> list string)
    (conversation_history : list string) (is_first_round : bool)
    (log : list call) : list chat_message * list string * list call :=
  let '(new_messages, conversation_history', _, log') :=
    collect_round scheduler conversation_history is_first_round log in
  (new_messages, conversation_history', log').

(** The error texts that a round builds, in the order of the personas. *)
Definition round_errors (scheduler : list call -> list string)
    (conversation_history : list string) (is_first_round : bool)
    (log : list call) : list (string * string) :=
  (collect_round scheduler conversation_history is_first_round log).1.2.

(** *** The group chat *)

(** A later round, appended to the rounds run so far. *)
Definition next_round (scheduler : list call -> list string)
    (st : list (list chat_message) * list string * list call)
  : list (list chat_message) * list string * list call :=
  let '(rounds, conversation_history, log) := st in
  let '(round_messages, conversation_history', log') :=
    run_one_round scheduler conversation_history false log in
  (rounds ++ [round_messages], conversation_history', log').

(** The rounds of [run_group_chat]: the first one, then
    [for round_num in range(1, chat_rounds)]. The messages are kept per
    round; [group_chat_messages] is their concatenation. *)
Definition chat_rounds_run (scheduler : list call -> list string)
    (user_message : string) (chat_rounds : Z) (log : list call)
  : list (list chat_message) * list string * list call :=
  let conversation_history := ["You: " +:+ user_message] in
  let '(round1_messages, conversation_history', log') :=
    run_one_round scheduler conversation_history true log in
  Nat.iter (Z.to_nat (chat_rounds - 1)) (next_round scheduler)
           ([round1_messages], conversation_history', log').

(** [run_group_chat] *)
Definition run_group_chat (scheduler : list call -> list string)
    (user_message : string) (chat_rounds : Z) (log : list call)
  : CouncilState * list call :=
  let state := step_1_broadcast user_message in
  let '(rounds, conversation_history, log') :=
    chat_rounds_run scheduler user_message chat_rounds log in
  (set_conversation_history conversation_history
     (set_group_chat (concat rounds) state),
   log').

End Protocol.

(** ** The handlers of the two collecting loops

    The loops again, with their [try] and [except Exception] written out
    and with calls that may raise any exception: this is where a failure is
    caught, and where one that is no [Exception] leaves the loop. *)

(** What the collecting thread gets from a call that ended as [o]:
    [future.result()] returns the text, or raises the call's exception. *)
Definition result_of (o : outcome) : raising string :=
  match o with
  | Returned text => Ok text
  | Raised err => Raise (Exception err)
  end.

(** [try: body except Exception as e: handler(str(e))] *)
Definition try_except {A} (body : raising A) (handler : string -> raising A)
  : raising A :=
  match body with
  | Raise (Exception msg) => handler msg
  | Ok _ | Raise (Interrupt _) => body
  end.

(** The body of the collection loop of a round; [read name] is what
    [future.result(timeout=60)] does on the future of [name]. Once an
    exception has left the loop nothing more is collected. *)
Definition guarded_collect (read : string -> raising string)
    (acc : raising (list chat_message * list string * list (string * string)))
    (name : string)
  : raising (list chat_message * list string * list (string * string)) :=
  match acc with
  | Raise e => Raise e
  | Ok acc =>
      try_except
        (match read name with
         | Ok response =>
             Ok (if is_skip response then acc
                 else (acc.1.1 ++ [ChatMessage name response],
                       acc.1.2 ++ [line name response],
                       acc.2))
         | Raise e => Raise e
         end)
        (fun msg => Ok (acc.1, acc.2 ++ [(name, error_text msg)]))
  end.

Definition guarded_round (read : string -> raising string)
    (conversation_history : list string)
  : raising (list chat_message * list string * list (string * string)) :=
  foldl (guarded_collect read) (Ok ([], conversation_history, []))
        (OD.keys agents).

(** The body of the [as_completed] loop of step 2; [read f] is what
    [f.result()] does. *)
Definition guarded_record (read : future -> raising string)
    (futures : odict future) (acc : raising (gmap string string))
    (f : future) : raising (gmap string string) :=
  match acc with
  | Raise e => Raise e
  | Ok agent_responses =>
      match role_of futures f with
      | Some agent_role =>
          if bool_decide (agent_role = "") then Ok agent_responses
          else
            let agent_display_name := display_name agent_role in
            try_except
              (match read f with
               | Ok result =>
                   Ok (<[agent_role := result]>
                         (<[agent_display_name := result]> agent_responses))
               | Raise e => Raise e
               end)
              (fun msg =>
                 Ok (<[agent_role := error_text msg]>
                       (<[agent_display_name := error_text msg]>
                          agent_responses)))
      | None => Ok agent_responses
      end
  end.

Definition guarded_broadcast (read : future -> raising string)
    (futures : odict future) (completed : list future)
  : raising (gmap string string) :=
  foldl (guarded_record read futures) (Ok ∅) completed.

(** [as_completed] when the future with identity [id] is done at time
    [done_at id]: the futures in the order in which they are done. Step 2
    passes no timeout, neither to [as_completed] nor to [result], so the
    times decide the order and nothing else. *)
Fixpoint insert_by_time (done_at : nat -> nat) (f : future)
    (fs : list future) : list future :=
  match fs with
  | [] => [f]
  | g :: fs' =>
      if done_at (fut_id f) <=? done_at (fut_id g) then f :: fs
      else g :: insert_by_time done_at f fs'
  end.

Definition completion_order (done_at : nat -> nat) (fs : list future)
  : list future :=
  foldr (insert_by_time done_at) [] fs.

(** ** Vocabulary of the statements *)

(** The eight keys of the response map: four roles, four aliases. *)
Definition known_keys : list string := role_names ++ alias_names.

(** What the collector of a round obtains from [name]'s future. *)
Definition collected
    (chat_response : list call -> persona -> string -> string -> string -> outcome)
    (scheduler : list call -> list string) (conversation_history : list string)
    (is_first_round : bool) (log : list call) (name : string) : outcome :=
  let submitted :=
    submit_round chat_response is_first_round conversation_history log in
  future_result (finished submitted.1 (scheduler submitted.2)) name.

(** A persona contributes to a round when its reply arrived and is no SKIP. *)
Definition contributes (o : outcome) : bool :=
  match o with
  | Returned response => negb (is_skip response)
  | Raised _ => false
  end.

(** The error texts built for the personas of [names] whose call failed. *)
Definition failures (o : string -> outcome) (names : list string)
  : list (string * string) :=
  omap (fun name =>
          match o name with
          | Returned _ => None
          | Raised err => Some (name, error_text err)
          end) names.

(** The prompt and the calls of a round, as fixed by the history before it. *)
Definition round_prompt (is_first_round : bool)
    (conversation_history : list string) : string :=
  if is_first_round then first_round_prompt conversation_history
  else skip_prompt (context_of conversation_history).

Definition round_calls (is_first_round : bool)
    (conversation_history : list string) : list call :=
  (fun item => Call item.2 (round_prompt is_first_round conversation_history)
                    (context_of conversation_history) item.1) <$> agents.

(** What the persona of turn [k] of step 2.5 is shown: the window over the
    initial lines and the [k] replies made before its turn. *)
Definition seen_at_turn (initial : list string) (replies : list chat_message)
    (k : nat) : string :=
  context_of (initial ++ (line_of <$> take k replies)).

(** What holds of a step-2.5 conversation at any point: the history is the
    initial lines followed by the replies, and the call of turn [k] was
    handed the window over the history as it was after [k] replies. *)
Definition debate_invariant (initial : list string) (log : list call)
    (t : talk) : Prop :=
  history t = initial ++ (line_of <$> said t) /\
  exists asked, calls t = log ++ asked /\
    length asked = length (said t) /\
    forall k c, asked !! k = Some c ->
      conversation_context c = seen_at_turn initial (said t) k /\
      user_message c = conversation_prompt (conversation_context c) /\
      agent <$> (said t !! k) = Some (agent_name c).

(** The keys of the custom weights handed to the constructor. *)
Definition custom_keys (custom_weights : option (odict Q)) : list string :=
  default [] (OD.keys <$> custom_weights).

(** The response map and the weight breakdown a session ends with. *)
Definition session_responses (final : raising CouncilState)
  : gmap string string :=
  match final with
  | Ok state => agent_responses state
  | Raise _ => ∅
  end.

Definition session_breakdown (final : raising CouncilState)
  : gmap string weight_entry :=
  match final with
  | Ok state =>
      match final_decision state with
      | Some d => default ∅ (weight_breakdown d)
      | None => ∅
      end
  | Raise _ => ∅
  end.

(** All the calls of a list were handed one and the same context. *)
Definition shares_snapshot (round_calls : list call) : Prop :=
  forall c1 c2, c1 ∈ round_calls -> c2 ∈ round_calls ->
    conversation_context c1 = conversation_context c2.

(** A reply holds a closing signal as a substring, letter case apart. *)
Definition closing_reply (reply : string) : Prop :=
  exists signal before after,
    signal ∈ closing_signals /\
    Str.lower reply = before +:+ signal +:+ after.

(** No key of the response map or of the weight breakdown is unknown. *)
Definition only_known_keys (responses : gmap string string)
    (breakdown : gmap string weight_entry) : Prop :=
  forall k, k ∈ dom responses \/ k ∈ dom breakdown -> k ∈ known_keys.

(** *** Sample collaborators *)

Definition greeting (log : list call) (p : persona)
    (user_message conversation_context agent_name : string) : outcome :=
  Returned ("hi from " +:+ agent_name).

(** Elon's call raises, Sam skips, the others answer. *)
Definition moody (log : list call) (p : persona)
    (user_message conversation_context agent_name : string) : outcome :=
  match p with
  | visionary => Raised "boom"
  | strategist => Returned " skip for now"
  | _ => Returned ("noted by " +:+ agent_name)
  end.

(** A reply that opens with a no-break space and spells SKIP with a long s
    (U+017F), whose upper-case form is S. *)
Definition formal_skip : string :=
  Str.utf8 0xA0 +:+ Str.utf8 0x17F +:+ "kip, nothing to add".

(** Sam declines in that way, the others answer. *)
Definition courteous (log : list call) (p : persona)
    (user_message conversation_context agent_name : string) : outcome :=
  match p with
  | strategist => Returned formal_skip
  | _ => Returned ("noted by " +:+ agent_name)
  end.

(** Everybody skips in every round after the first. *)
Definition quiet (log : list call) (p : persona)
    (user_message conversation_context agent_name : string) : outcome :=
  if 4 <=? length log then Returned "SKIP" else Returned "hello".

(** Ray settles the matter in the second exchange. *)
Definition settling (log : list call) (p : persona)
    (user_message conversation_context agent_name : string) : outcome :=
  match p, length log with
  | risk_analyst, 3 => Returned "That Works for me."
  | visionary, _ => Raised "offline"
  | _, _ => Returned "not yet"
  end.

Definition sample_analyze (p : persona) (problem : string) : outcome :=
  match p with
  | operator => Raised "connection refused"
  | _ => Returned ("a view on " +:+ problem)
  end.

(** Every persona answers. *)
Definition steady_analyze (p : persona) (problem : string) : outcome :=
  Returned ("a view on " +:+ problem).

(** The operator's call is done after an hour, the others after five units. *)
Definition operator_is_slow (id : nat) : nat :=
  if id =? 2 then 3600 else 5.

Definition sample_synthesize (problem : string) (responses : odict string)
  : gmap string value :=
  {[ "summary" := VStr "mixed views";
     "final_options" := VList ["launch"; "wait"] ]}.

(** A synthesis client that answers every call, as [f] says. *)
Definition answering (f : string -> odict string -> gmap string value)
    (problem : string) (responses : odict string)
  : raising (gmap string value) :=
  Ok (f problem responses).




(** ** Further operations of the repository *)

(** *** src/config.py *)

(** [{v: k for k, v in mapping.items()}] *)
Definition reverse_mapping (mapping : odict string) : odict string :=
  foldl (fun d kv => OD.set d kv.2 kv.1) [] mapping.

(** [Config.get_reverse_agent_mapping] *)
Definition get_reverse_agent_mapping : odict string :=
  reverse_mapping AGENT_NAME_MAPPING.

(** *** src/synthesis.py *)

(** The fields of the structured response ([SynthesisOutput]). *)
Record SynthesisOutput : Type := Structured {
  summary : string;
  agreements : list string;
  conflicts : list string;
  blind_spots : list string;
  final_options : list string
}.

(** A message of the agent's result: one with a [content] attribute, or an
    object of which only [str(..)] can be taken. *)
Inductive reply_message : Type :=
| WithContent (content : string)
| Shown (str : string).

(** What [self.agent.invoke(..)] returns: the keys ["structured_response"]
    and ["messages"], each possibly absent or empty. *)
Record invoke_result : Type := InvokeResult {
  structured_response : option SynthesisOutput;
  messages : list reply_message
}.

(** [structured_response.model_dump()] *)
Definition model_dump (o : SynthesisOutput) : gmap string value :=
  {[ "summary" := VStr (summary o);
     "agreements" := VList (agreements o);
     "conflicts" := VList (conflicts o);
     "blind_spots" := VList (blind_spots o);
     "final_options" := VList (final_options o) ]}.

(** The dictionary returned without a structured response. *)
Definition unstructured (text : string) : gmap string value :=
  {[ "summary" := VStr text;
     "agreements" := VList [];
     "conflicts" := VList [];
     "blind_spots" := VList [];
     "final_options" := VList [] ]}.

(** [last_message.content if hasattr(last_message, "content")
     else str(last_message)] *)
Definition content_of (m : reply_message) : string :=
  match m with
  | WithContent content => content
  | Shown str => str
  end.

Definition responses_text (agent_responses : odict string) : string :=
  Str.join (Str.nl +:+ Str.nl)
    (List.map (fun item => "### " +:+ item.1 +:+ Str.nl +:+ item.2)
              agent_responses).

Definition synthesis_prompt (problem : string) (agent_responses : odict string)
  : string :=
  "Analyze and synthesize the following responses from 4 specialized agents regarding this problem:"
  +:+ Str.nl +:+ Str.nl
  +:+ "PROBLEM:" +:+ Str.nl
  +:+ problem +:+ Str.nl +:+ Str.nl
  +:+ "AGENT RESPONSES:" +:+ Str.nl
  +:+ responses_text agent_responses +:+ Str.nl +:+ Str.nl
  +:+ "Your task:" +:+ Str.nl
  +:+ "1. Provide a comprehensive summary of all perspectives" +:+ Str.nl
  +:+ "2. Identify key agreements across agents" +:+ Str.nl
  +:+ "3. Highlight conflicts or disagreements" +:+ Str.nl
  +:+ "4. Identify blind spots or unaddressed areas" +:+ Str.nl
  +:+ "5. Propose 2-3 final options or paths forward based on the synthesis"
  +:+ Str.nl +:+ Str.nl
  +:+ "Be thorough, balanced, and actionable in your synthesis.".

(** [SynthesisAgent.synthesize] once the call to the model has returned;
    [invoke] gives the result of that call for a prompt. *)
Definition synthesize_with (invoke : string -> invoke_result)
    (problem : string) (agent_responses : odict string) : gmap string value :=
  let result := invoke (synthesis_prompt problem agent_responses) in
  match structured_response result with
  | Some structured => model_dump structured
  | None =>
      match last (messages result) with
      | Some last_message => unstructured (content_of last_message)
      | None => unstructured "Synthesis unavailable"
      end
  end.

(** [SynthesisAgent.synthesize] with the call to the model as it is made:
    outside any [try], so that what it raises leaves [synthesize]. *)
Definition synthesize_of (invoke : string -> raising invoke_result)
    (problem : string) (agent_responses : odict string)
  : raising (gmap string value) :=
  match invoke (synthesis_prompt problem agent_responses) with
  | Ok result => Ok (synthesize_with (fun _ => result) problem agent_responses)
  | Raise e => Raise e
  end.

(** The five keys of a synthesis result. *)
Definition synthesis_keys : list string :=
  ["summary"; "agreements"; "conflicts"; "blind_spots"; "final_options"].

(** *** src/agents: the test at the head of [chat_response] *)

(** [if "SKIP" in user_message.upper()
        or "Do you have something to add" in user_message]: the four agents
    then send the prompt that lets the model answer SKIP, and leave
    [user_message] out of it. *)
Definition asks_whether_to_respond (user_message : string) : bool :=
  Str.contains "SKIP" (Str.upper user_message)
  || Str.contains "Do you have something to add" user_message.

(** The texts of step 2, by role, in the order of the roles. *)
Definition role_texts (analyze : persona -> string -> outcome)
    (problem : string) : odict string :=
  List.map (fun item => (item.1, text_of (analyze item.2 problem))) role_agents.

(** The calls of one exchange of a tagged debate, as fixed by the debate
    history before the exchange. *)
Definition exchange_calls (participants : odict persona) (topic : string)
    (exchange : nat) (debate_history : list string) : list call :=
  (fun item =>
     Call item.2
          (debate_prompt exchange item.1 topic (context_of debate_history))
          (context_of debate_history) item.1) <$> participants.

(** What step 2.5 records: the message of turn [k] is the reply of call [k],
    or the error text of the exception it raised. *)
Definition debate_recorded
    (chat_response : list call -> persona -> string -> string -> string -> outcome)
    (log : list call) (t : talk) : Prop :=
  exists asked, calls t = log ++ asked /\
    length asked = length (said t) /\
    forall k c, asked !! k = Some c ->
      said t !! k
      = Some (ChatMessage (agent_name c)
                (text_of (chat_response (log ++ take k asked) (callee c)
                            (user_message c) (conversation_context c)
                            (agent_name c)))) /\
      OD.get agents (agent_name c) = Some (callee c).

(** Every call raises. *)
Definition unreachable (log : list call) (p : persona)
    (user_message conversation_context agent_name : string) : outcome :=
  Raised "connection refused".

(** A model that answers with a structured response. *)
Definition sample_invoke (prompt : string) : invoke_result :=
  {| structured_response :=
       Some (Structured "two camps" ["speed matters"] [] [] ["launch"; "wait"]);
     messages := [WithContent "ignored"] |}.

(** A model that answers with plain text only. *)
Definition plain_invoke (prompt : string) : invoke_result :=
  {| structured_response := None;
     messages := [Shown "first"; WithContent "no structure today"] |}.

(** Sam's call is interrupted; the others answer. *)
Definition interrupted (name : string) : raising string :=
  if bool_decide (name = "Sam") then Raise (Interrupt "KeyboardInterrupt")
  else Ok ("hi from " +:+ name).

(** A synthesis client whose model cannot be reached. *)
Definition failing_synthesize : string -> odict string
                                -> raising (gmap string value) :=
  synthesize_of (fun _ => Raise (Exception "connection refused")).

(** ** Facts about strings and dictionaries *)

Lemma append_cons (c : ascii) (s t : string) :
  String c s +:+ t = String c (s +:+ t).
Proof. reflexivity. Qed.

Lemma append_empty_l (t : string) : "" +:+ t = t.
Proof. reflexivity. Qed.




Lemma prefix_split (p s : string) :
  String.prefix p s = true <-> exists rest, s = p +:+ rest.
Proof.
  revert s. induction p as [|c p IH]; intros s.
  - split; [intros _; exists s; reflexivity | destruct s; reflexivity].
  - destruct s as [|d s]; simpl.
    + split; [discriminate | intros [rest H]; discriminate].
    + destruct (ascii_dec c d) as [->|Hne].
      * rewrite IH. split; intros [rest H]; exists rest.
        -- rewrite append_cons. congruence.
        -- rewrite append_cons in H. congruence.
      * split; [discriminate|]. intros [rest H].
        rewrite append_cons in H. congruence.
Qed.

(** [needle in hay] holds exactly when [hay] splits around [needle]. *)
Lemma contains_split (needle hay : string) :
  Str.contains needle hay = true <->
  exists before after, hay = before +:+ needle +:+ after.
Proof.
  induction hay as [|c hay IH].
  - cbn [Str.contains]. rewrite orb_false_r, prefix_split. split.
    + intros [rest H]. exists "", rest. exact H.
    + intros [before [after H]]. destruct before; [|discriminate].
      exists after. exact H.
  - cbn [Str.contains]. rewrite orb_true_iff, prefix_split, IH. split.
    + intros [[rest H]|[before [after H]]].
      * exists "", rest. exact H.
      * exists (String c before), after. rewrite append_cons. congruence.
    + intros [before [after H]]. destruct before as [|d before].
      * left. exists after. exact H.
      * right. exists before, after. rewrite append_cons in H. congruence.
Qed.

Lemma closing_nil : closing [] = false.
Proof. reflexivity. Qed.

Lemma closing_iff (exchange_messages : list chat_message) :
  closing exchange_messages = true <->
  exists msg, msg ∈ exchange_messages /\ closing_reply (message msg).
Proof.
  unfold closing, closing_reply. rewrite existsb_exists. split.
  - intros [response [Hin Hsig]].
    apply in_map_iff in Hin as [msg [<- Hin]].
    apply existsb_exists in Hsig as [signal [Hs Hc]].
    apply contains_split in Hc as [before [after Hc]].
    exists msg. split; [by apply list_elem_of_In|].
    exists signal, before, after. split; [by apply list_elem_of_In | exact Hc].
  - intros [msg [Hin [signal [before [after [Hs Hc]]]]]].
    exists (Str.lower (message msg)). split.
    + apply in_map_iff. exists msg. split; [done | by apply list_elem_of_In].
    + apply existsb_exists. exists signal. split; [by apply list_elem_of_In|].
      apply contains_split. eauto.
Qed.

(** ** Facts about the decision records *)

Lemma breakdown_lookup (agent_responses : gmap string string)
    (ws : odict Q) (acc : gmap string weight_entry)
    (alias : string) (entry : weight_entry) :
  foldl (breakdown_step agent_responses) acc ws !! alias = Some entry ->
  acc !! alias = Some entry \/
  exists role, (role, weight entry) ∈ ws /\ display_name role = alias /\
    response_preview entry = preview (get_or agent_responses role alias).
Proof.
  revert acc. induction ws as [|[role w] ws IH]; intros acc H; [by left|].
  simpl in H. apply IH in H as [H|(role' & Hin & Hname & Hprev)].
  - unfold breakdown_step in H. simpl in H.
    destruct (decide (display_name role = alias)) as [Heq|Hne].
    + rewrite Heq, lookup_insert_eq in H. injection H as <-. right.
      exists role. simpl. split; [left | by subst].
    + rewrite lookup_insert_ne in H by done. by left.
  - right. exists role'. split; [by right | done].
Qed.

Lemma breakdown_dom (agent_responses : gmap string string)
    (ws : odict Q) (acc : gmap string weight_entry) :
  dom (foldl (breakdown_step agent_responses) acc ws)
  = dom acc ∪ list_to_set (display_name <$> OD.keys ws).
Proof.
  revert acc. induction ws as [|[role w] ws IH]; intros acc; simpl.
  - set_solver.
  - rewrite IH. unfold breakdown_step. rewrite dom_insert_L. simpl. set_solver.
Qed.

Lemma renamed_lookup (ws : odict Q) (acc : gmap string Q)
    (alias : string) (q : Q) :
  foldl (fun m kv => <[display_name kv.1 := kv.2]> m) acc ws !! alias = Some q ->
  acc !! alias = Some q \/
  exists role, (role, q) ∈ ws /\ display_name role = alias.
Proof.
  revert acc. induction ws as [|[role w] ws IH]; intros acc H; [by left|].
  simpl in H. apply IH in H as [H|(role' & Hin & Hname)].
  - destruct (decide (display_name role = alias)) as [Heq|Hne].
    + rewrite Heq, lookup_insert_eq in H. injection H as <-. right.
      exists role. split; [left | done].
    + rewrite lookup_insert_ne in H by done. by left.
  - right. exists role'. split; [by right | done].
Qed.

(** C7. Both decision strategies copy the synthesis result: the recommended
    options are its [final_options] (the empty list when the key is absent),
    the summary, agreements, conflicts and blind spots are its entries, the
    same for the two strategies and whatever the responses and the weights
    are; and every weight that the weighted record shows is a configured
    weight, under the alias of its key. *)
Theorem decision_copies_synthesis (self other : CouncilOrchestrator)
    (agent_responses responses' : gmap string string)
    (synthesis_output : gmap string value) :
  let w := _weighted_decision self agent_responses synthesis_output in
  let m := _majority_voting agent_responses synthesis_output in
  recommended_options w = default (VList []) (synthesis_output !! "final_options") /\
  recommended_options m = recommended_options w /\
  recommended_options (_weighted_decision other responses' synthesis_output)
    = recommended_options w /\
  recommended_options (_majority_voting responses' synthesis_output)
    = recommended_options m /\
  synthesis_summary w = default (VStr "") (synthesis_output !! "summary") /\
  synthesis_summary m = synthesis_summary w /\
  key_agreements w = default (VList []) (synthesis_output !! "agreements") /\
  key_agreements m = key_agreements w /\
  key_conflicts w = default (VList []) (synthesis_output !! "conflicts") /\
  key_conflicts m = key_conflicts w /\
  identified_blind_spots w
    = default (VList []) (synthesis_output !! "blind_spots") /\
  identified_blind_spots m = identified_blind_spots w /\
  (forall options, synthesis_output !! "final_options" = Some options ->
     recommended_options w = options /\ recommended_options m = options) /\
  (forall used alias q, weights_used w = Some used -> used !! alias = Some q ->
     exists role, (role, q) ∈ weights self /\ display_name role = alias) /\
  (forall breakdown alias entry, weight_breakdown w = Some breakdown ->
     breakdown !! alias = Some entry ->
     exists role, (role, weight entry) ∈ weights self /\
       display_name role = alias) /\
  weights_used m = None /\ weight_breakdown m = None.
Proof.
  simpl. repeat split; try reflexivity.
  - by rewrite H.
  - by rewrite H.
  - intros used alias q [= <-] Hq.
    apply renamed_lookup in Hq as [Hq|Hq]; [by rewrite lookup_empty in Hq|done].
  - intros breakdown alias entry [= <-] He.
    apply breakdown_lookup in He as [He|(role & Hin & Hname & _)].
    + by rewrite lookup_empty in He.
    + by exists role.
Qed.

(** A synthesis result with two options, under default weights. *)
Lemma decision_copies_synthesis_witness :
  recommended_options
    (_weighted_decision (init None None) ∅ (sample_synthesize "" []))
  = VList ["launch"; "wait"] /\
  recommended_options (_majority_voting ∅ (sample_synthesize "" []))
  = VList ["launch"; "wait"].
Proof.
  destruct (decision_copies_synthesis (init None None) (init None None) ∅ ∅
              (sample_synthesize "" []))
    as (_ & _ & _ & _ & _ & _ & _ & _ & _ & _ & _ & _ & Hoptions & _).
  exact (Hoptions (VList ["launch"; "wait"]) eq_refl).
Defined.



(** ** Facts about completion orders *)

(** A left fold whose steps commute on the elements at hand does not see the
    order of the list. *)
Lemma foldl_order_irrelevant {A B} (f : A -> B -> A) (P : B -> Prop) :
  (forall a x y, P x -> P y -> f (f a x) y = f (f a y) x) ->
  forall l1 l2, l1 ≡ₚ l2 -> Forall P l1 ->
  forall a, foldl f a l1 = foldl f a l2.
Proof.
  intros Hcomm l1 l2 Hperm.
  induction Hperm as [|x l l' Hperm IH|x y l|l l' l'' H1 IH1 H2 IH2];
    intros HP a.
  - reflexivity.
  - simpl. apply IH. by eapply Forall_inv_tail.
  - simpl. f_equal. apply Forall_cons in HP as [Hy HP].
    apply Forall_cons in HP as [Hx HP]. by apply Hcomm.
  - rewrite IH1 by done. apply IH2. by rewrite <- H1.
Qed.

Section Broadcast.

Variable analyze : persona -> string -> outcome.
Variable problem : string.

Let futures := submit_all analyze problem.

Lemma record_response_commute (acc : gmap string string) (x y : future) :
  x ∈ futures.*2 -> y ∈ futures.*2 ->
  record_response futures (record_response futures acc x) y
  = record_response futures (record_response futures acc y) x.
Proof.
  unfold futures, submit_all. simpl. intros Hx Hy.
  set_unfold in Hx; set_unfold in Hy.
  destruct Hx as [->|[->|[->|[->|[]]]]], Hy as [->|[->|[->|[->|[]]]]];
    try reflexivity;
    unfold record_response; simpl; apply map_eq; intros k;
    rewrite !lookup_insert; repeat case_decide; simplify_eq; reflexivity.
Qed.

Lemma responses_in_any_order (completed : list future) :
  completed ≡ₚ futures.*2 ->
  foldl (record_response futures) ∅ completed
  = foldl (record_response futures) ∅ (futures.*2).
Proof.
  intros Hperm.
  apply (foldl_order_irrelevant _ (fun f => f ∈ futures.*2)); [|done|].
  - intros acc x y. apply record_response_commute.
  - rewrite Hperm. by apply Forall_forall.
Qed.

End Broadcast.

Lemma broadcast_dom (analyze : persona -> string -> outcome)
    (as_completed : list future -> list future) (state : CouncilState) :
  (forall fs, as_completed fs ≡ₚ fs) ->
  dom (agent_responses (step_2_parallel_responses analyze as_completed state))
  = list_to_set known_keys.
Proof.
  intros Hperm. simpl. rewrite responses_in_any_order by apply Hperm.
  unfold record_response. simpl. rewrite !dom_insert_L, dom_empty_L.
  unfold known_keys. simpl. set_solver.
Qed.

(** C1. Whatever each of the four [analyze] calls does (return or raise) and
    in whatever order the futures complete, the response map written by
    [step_2_parallel_responses] has exactly the eight known keys, and under a
    role and under its alias it holds the same value: the call's result, or
    the error text of the exception it raised. *)
Theorem broadcast_is_complete (analyze : persona -> string -> outcome)
    (as_completed : list future -> list future) (state : CouncilState) :
  (forall fs, as_completed fs ≡ₚ fs) ->
  let responses :=
    agent_responses (step_2_parallel_responses analyze as_completed state) in
  dom responses = list_to_set known_keys /\
  size responses = 8 /\
  forall role p, OD.get role_agents role = Some p ->
    responses !! role
      = Some (text_of (analyze p (problem_statement state))) /\
    responses !! display_name role = responses !! role.
Proof.
  intros Hperm responses.
  pose proof (broadcast_dom analyze as_completed state Hperm) as Hdom.
  fold responses in Hdom.
  split; [exact Hdom|]. split.
  - rewrite <- size_dom, Hdom, size_list_to_set; [reflexivity|].
    apply (bool_decide_unpack _). by vm_compute.
  - subst responses. simpl. rewrite responses_in_any_order by apply Hperm.
    intros role p Hrole. unfold role_agents in Hrole. simpl in Hrole.
    repeat case_decide; simplify_eq; split; reflexivity.
Qed.

(** The futures complete in the reverse of the submission order and the
    operator's call raises. *)
Lemma broadcast_is_complete_witness :
  let responses :=
    agent_responses
      (step_2_parallel_responses sample_analyze reverse
                                 (step_1_broadcast "launch?")) in
  size responses = 8 /\
  responses !! "Operator" = Some "Error: connection refused" /\
  responses !! "Sheryl" = responses !! "Operator".
Proof.
  destruct (broadcast_is_complete sample_analyze reverse
              (step_1_broadcast "launch?") reverse_Permutation)
    as (_ & Hsize & Hkeys).
  destruct (Hkeys "Operator" operator eq_refl) as [Hrole Halias].
  split; [exact Hsize|]. split; [exact Hrole | exact Halias].
Defined.

(** ** Facts about one round *)

Section Round.

Variable chat_response :
  list call -> persona -> string -> string -> string -> outcome.
Variable scheduler : list call -> list string.
Variable conversation_history : list string.
Variable is_first_round : bool.
Variable log : list call.

Let submitted :=
  submit_round chat_response is_first_round conversation_history log.
Let seen := collected chat_response scheduler conversation_history
                      is_first_round log.

Lemma submit_round_calls :
  submitted.2 = log ++ round_calls is_first_round conversation_history.
Proof.
  unfold submitted, submit_round, round_calls, round_prompt. simpl.
  by rewrite <- !app_assoc.
Qed.

Lemma submit_round_keys : OD.keys submitted.1 = alias_names.
Proof. reflexivity. Qed.

Lemma collect_fold (done : gmap string outcome) (names : list string)
    (acc : list chat_message * list string * list (string * string)) :
  let kept :=
    (fun name => ChatMessage name (text_of (future_result done name)))
      <$> List.filter (fun name => contributes (future_result done name))
                      names in
  foldl (collect done) acc names
  = (acc.1.1 ++ kept, acc.1.2 ++ (line_of <$> kept),
     acc.2 ++ failures (future_result done) names).
Proof.
  revert acc.
  induction names as [|name names IH]; intros [[msgs h] errors]; simpl.
  - by rewrite !app_nil_r.
  - rewrite IH. unfold collect, contributes.
    destruct (future_result done name) as [response|err] eqn:E; simpl.
    + destruct (is_skip response); simpl; [done|].
      rewrite E. simpl. by rewrite <- !app_assoc.
    + by rewrite <- app_assoc.
Qed.

(** The two loops in closed form. *)
Lemma collect_round_eq :
  let new_messages :=
    (fun name => ChatMessage name (text_of (seen name)))
      <$> List.filter (fun name => contributes (seen name)) alias_names in
  collect_round chat_response scheduler conversation_history
                is_first_round log
  = (new_messages,
     conversation_history ++ (line_of <$> new_messages),
     failures seen alias_names,
     log ++ round_calls is_first_round conversation_history).
Proof.
  intros new_messages. unfold collect_round.
  fold submitted. destruct submitted as [futures log'] eqn:Hsub.
  pose proof submit_round_calls as Hcalls.
  pose proof submit_round_keys as Hkeys.
  rewrite Hsub in Hcalls, Hkeys. simpl in Hcalls, Hkeys.
  rewrite Hkeys, collect_fold. simpl.
  subst new_messages. unfold seen, collected. fold submitted.
  rewrite Hsub. simpl. by rewrite Hcalls.
Qed.

(** The round in closed form. *)
Lemma run_one_round_eq :
  let new_messages :=
    (fun name => ChatMessage name (text_of (seen name)))
      <$> List.filter (fun name => contributes (seen name)) alias_names in
  run_one_round chat_response scheduler conversation_history
                is_first_round log
  = (new_messages,
     conversation_history ++ (line_of <$> new_messages),
     log ++ round_calls is_first_round conversation_history).
Proof.
  intros new_messages. unfold run_one_round. by rewrite collect_round_eq.
Qed.

Lemma round_errors_eq :
  round_errors chat_response scheduler conversation_history is_first_round
               log
  = failures seen alias_names.
Proof. unfold round_errors. by rewrite collect_round_eq. Qed.

Lemma kept_message (m : chat_message) (names : list string)
    (o : string -> outcome) :
  m ∈ (fun name => ChatMessage name (text_of (o name)))
        <$> List.filter (fun name => contributes (o name)) names ->
  agent m ∈ names /\ o (agent m) = Returned (message m) /\
  is_skip (message m) = false.
Proof.
  intros Hm. apply list_elem_of_fmap in Hm as [name [-> Hin]].
  apply list_elem_of_In, filter_In in Hin as [Hin Hc]. simpl.
  split; [by apply list_elem_of_In|].
  unfold contributes in Hc. destruct (o name) as [response|err]; [|done].
  simpl. split; [done|]. by apply negb_true_iff.
Qed.

End Round.


Lemma finished_lookup (futures : odict outcome) (schedule : list string)
    (name : string) (o : outcome) :
  finished futures schedule !! name = Some o ->
  OD.get futures name = Some o /\ name ∈ schedule.
Proof.
  unfold finished.
  assert (Hgen : forall acc : gmap string outcome,
    foldl (fun done name =>
             match OD.get futures name with
             | Some o => <[name := o]> done
             | None => done
             end) acc schedule !! name = Some o ->
    acc !! name = Some o \/ (OD.get futures name = Some o /\ name ∈ schedule)).
  { induction schedule as [|x schedule IH]; intros acc H; [by left|].
    simpl in H. apply IH in H as [H|[H1 H2]].
    - destruct (OD.get futures x) as [ox|] eqn:Hx; [|by left].
      destruct (decide (x = name)) as [->|Hne].
      + rewrite lookup_insert_eq in H. right. split; [congruence | left].
      + rewrite lookup_insert_ne in H by done. by left.
    - right. split; [done | by right]. }
  intros H. apply Hgen in H as [H|H]; [by rewrite lookup_empty in H | done].
Qed.

Lemma get_in_keys {V} (d : odict V) (k : string) (v : V) :
  OD.get d k = Some v -> k ∈ OD.keys d.
Proof.
  induction d as [|[k' v'] d IH]; simpl; [done|].
  case_decide as Hk; intros H.
  - subst. left.
  - right. by apply IH.
Qed.


(** A reply can only be collected from one of the four personas. *)
Lemma collected_returned_alias
    (chat_response : list call -> persona -> string -> string -> string -> outcome)
    (scheduler : list call -> list string) (h : list string) (b : bool)
    (log : list call) (name reply : string) :
  collected chat_response scheduler h b log name = Returned reply ->
  name ∈ alias_names.
Proof.
  unfold collected, future_result. intros H.
  destruct (finished _ _ !! name) as [o|] eqn:Hdone; [|done].
  apply finished_lookup in Hdone as [Hget _].
  apply get_in_keys in Hget. by rewrite submit_round_keys in Hget.
Qed.

(** The lines of two different personas differ, whatever the texts. *)
Lemma line_names_apart (a b x y : string) :
  a ∈ alias_names -> b ∈ alias_names -> line a x = line b y -> a = b.
Proof.
  unfold alias_names. simpl. intros Ha Hb. set_unfold in Ha; set_unfold in Hb.
  destruct Ha as [->|[->|[->|[->|[]]]]], Hb as [->|[->|[->|[->|[]]]]];
    first [reflexivity | discriminate].
Qed.

Lemma line_same_name (a x y : string) : line a x = line a y -> x = y.
Proof.
  unfold line. induction a as [|c a IH]; rewrite ?append_cons.
  - rewrite append_empty_l. intros [=]. done.
  - intros [=]. by apply IH.
Qed.

(** C4. In a round (a first round included) a reply that is SKIP or begins
    with SKIP once stripped, letter case apart, leaves no trace: the persona
    has no entry among the new messages, its line is not among the lines
    appended to the history, and every new message holds a reply that is no
    SKIP. *)
Theorem skip_is_not_recorded
    (chat_response : list call -> persona -> string -> string -> string -> outcome)
    (scheduler : list call -> list string) (conversation_history : list string)
    (is_first_round : bool) (log : list call) (name reply : string) :
  collected chat_response scheduler conversation_history is_first_round log
            name = Returned reply ->
  is_skip reply = true ->
  let r := run_one_round chat_response scheduler conversation_history
                         is_first_round log in
  (name ∉ (agent <$> r.1.1)) /\
  (ChatMessage name reply ∉ r.1.1) /\
  r.1.2 = conversation_history ++ (line_of <$> r.1.1) /\
  (line name reply ∉ (line_of <$> r.1.1)) /\
  Forall (fun m => is_skip (message m) = false) r.1.1.
Proof.
  intros Hseen Hskip. rewrite run_one_round_eq. simpl.
  set (seen := collected chat_response scheduler conversation_history
                         is_first_round log) in *.
  assert (Hagent : name ∉ agent <$>
    ((fun n => ChatMessage n (text_of (seen n)))
       <$> List.filter (fun n => contributes (seen n)) alias_names)).
  { intros Hin. apply list_elem_of_fmap in Hin as [m [-> Hm]].
    apply (kept_message m alias_names seen) in Hm as (_ & Hr & Hns).
    congruence. }
  split; [exact Hagent|]. split; [|split; [reflexivity|split]].
  - intros Hin. apply Hagent. apply list_elem_of_fmap.
    by exists (ChatMessage name reply).
  - intros Hin. apply list_elem_of_fmap in Hin as [m [Hline Hm]].
    apply (kept_message m alias_names seen) in Hm as (Halias & Hr & Hns).
    unfold line_of in Hline.
    assert (name = agent m) as ->.
    { eapply line_names_apart; [|exact Halias|exact Hline].
      by eapply collected_returned_alias. }
    apply line_same_name in Hline. congruence.
  - apply Forall_forall. intros m Hm.
    by apply (kept_message m alias_names seen) in Hm as (_ & _ & Hns).
Qed.

(** Sam skips in a later round: in lower case after a space, or after a
    no-break space and with a long s. *)
Lemma skip_is_not_recorded_witness :
  let r := run_one_round moody (fun _ => alias_names) ["You: hi"] false [] in
  let r' :=
    run_one_round courteous (fun _ => alias_names) ["You: hi"] false [] in
  ("Sam" ∉ (agent <$> r.1.1)) /\
  r.1.2 = ["You: hi"; "Sheryl: noted by Sheryl"; "Ray: noted by Ray"] /\
  ("Sam" ∉ (agent <$> r'.1.1)) /\
  (line "Sam" formal_skip ∉ (line_of <$> r'.1.1)).
Proof.
  destruct (skip_is_not_recorded moody (fun _ => alias_names) ["You: hi"]
              false [] "Sam" " skip for now" eq_refl eq_refl)
    as (Hagent & _ & Hhist & _).
  destruct (skip_is_not_recorded courteous (fun _ => alias_names) ["You: hi"]
              false [] "Sam" formal_skip eq_refl eq_refl)
    as (Hagent' & _ & _ & Hline' & _).
  split; [exact Hagent|]. split; [exact Hhist|].
  split; [exact Hagent' | exact Hline'].
Defined.



Lemma not_finished_times_out (futures : odict outcome)
    (schedule : list string) (name : string) :
  name ∉ schedule ->
  future_result (finished futures schedule) name = Raised "".
Proof.
  intros Hout. unfold future_result.
  destruct (finished futures schedule !! name) as [o|] eqn:Hdone; [|done].
  by apply finished_lookup in Hdone as [_ Hin].
Qed.

(** The handler of a round catches what the calls of the model raise: with
    its [try] written out the collection loop gives what [collect] gives. *)
Lemma guarded_collect_fold (done : gmap string outcome) (names : list string)
    (acc : list chat_message * list string * list (string * string)) :
  foldl (guarded_collect (fun name => result_of (future_result done name)))
        (Ok acc) names
  = Ok (foldl (collect done) acc names).
Proof.
  revert acc. induction names as [|name names IH]; intros acc; [done|].
  cbn [foldl]. rewrite <- IH. f_equal.
  unfold guarded_collect, collect, try_except, result_of.
  by destruct (future_result done name).
Qed.

Lemma guarded_round_ok
    (chat_response : list call -> persona -> string -> string -> string -> outcome)
    (scheduler : list call -> list string) (conversation_history : list string)
    (is_first_round : bool) (log : list call) :
  guarded_round
    (fun name => result_of (collected chat_response scheduler
                              conversation_history is_first_round log name))
    conversation_history
  = Ok (collect_round chat_response scheduler conversation_history
                      is_first_round log).1.
Proof.
  unfold guarded_round, collect_round, collected.
  pose proof (submit_round_keys chat_response conversation_history
                is_first_round log) as Hkeys.
  destruct (submit_round chat_response is_first_round conversation_history
                         log) as [futures log'].
  cbn [fst snd] in *. rewrite Hkeys.
  apply (guarded_collect_fold (finished futures (scheduler log'))
           alias_names ([], conversation_history, [])).
Qed.

(** The same for the loop of step 2. *)
Lemma guarded_record_fold (futures : odict future) (completed : list future)
    (acc : gmap string string) :
  foldl (guarded_record (fun f => result_of (fut_outcome f)) futures)
        (Ok acc) completed
  = Ok (foldl (record_response futures) acc completed).
Proof.
  revert acc. induction completed as [|f completed IH]; intros acc; [done|].
  cbn [foldl]. rewrite <- IH. f_equal.
  unfold guarded_record, record_response, try_except, result_of.
  destruct (role_of futures f) as [agent_role|]; [|done].
  case_bool_decide; [done|]. by destruct (fut_outcome f).
Qed.

Lemma insert_by_time_perm (done_at : nat -> nat) (f : future)
    (fs : list future) :
  insert_by_time done_at f fs ≡ₚ f :: fs.
Proof.
  induction fs as [|g fs IH]; [done|]. cbn [insert_by_time].
  destruct (done_at (fut_id f) <=? done_at (fut_id g)); [done|].
  rewrite IH. apply Permutation_swap.
Qed.

Lemma completion_order_perm (done_at : nat -> nat) (fs : list future) :
  completion_order done_at fs ≡ₚ fs.
Proof.
  unfold completion_order. induction fs as [|f fs IH]; [done|].
  cbn [foldr]. by rewrite insert_by_time_perm, IH.
Qed.

Lemma failures_spec (o : string -> outcome) (names : list string)
    (name text : string) :
  (name, text) ∈ failures o names <->
  name ∈ names /\ exists err, o name = Raised err /\ text = error_text err.
Proof.
  unfold failures. rewrite list_elem_of_omap. split.
  - intros (n & Hn & Hsome). destruct (o n) as [reply|err] eqn:Ho; [done|].
    injection Hsome as <- <-. split; [done|]. by exists err.
  - intros (Hn & err & Ho & ->). exists name. split; [done|]. by rewrite Ho.
Qed.

(** C6, on the code's terms. In a round, a call that raises an exception,
    or that is not done when the 60-unit wait on its future ends (a failure
    with the empty message), is caught by the handler of the collection
    loop: the round does not raise. The failed persona has no new message
    and no line in the history; the error text "Error: <message>" is built
    for it and for no other persona, and is kept nowhere (it is printed in
    verbose mode). Every other persona's reply that is no SKIP is collected
    all the same. In step 2 the handler of the loop catches the exception
    of a call as well, and the role holds the error text of its own call
    under the role key and under the alias, the other roles their own
    results. Step 2 has no timeout: whatever the times at which the calls
    are done, it waits for them and stores what they return. *)
Theorem failure_is_contained
    (chat_response : list call -> persona -> string -> string -> string -> outcome)
    (scheduler : list call -> list string) (conversation_history : list string)
    (is_first_round : bool) (log : list call)
    (analyze : persona -> string -> outcome)
    (as_completed : list future -> list future) (state : CouncilState) :
  (forall fs, as_completed fs ≡ₚ fs) ->
  let r := run_one_round chat_response scheduler conversation_history
                         is_first_round log in
  let seen := collected chat_response scheduler conversation_history
                        is_first_round log in
  let errors := round_errors chat_response scheduler conversation_history
                             is_first_round log in
  let futures := submit_all analyze (problem_statement state) in
  let responses :=
    agent_responses (step_2_parallel_responses analyze as_completed state) in
  guarded_round (fun name => result_of (seen name)) conversation_history
  = Ok (r.1.1, r.1.2, errors) /\
  (forall name,
     name ∉ scheduler (log ++ round_calls is_first_round conversation_history) ->
     seen name = Raised "") /\
  r.1.2 = conversation_history ++ (line_of <$> r.1.1) /\
  (forall name err, name ∈ alias_names -> seen name = Raised err ->
     (name ∉ (agent <$> r.1.1)) /\
     (forall text, line name text ∉ (line_of <$> r.1.1)) /\
     (name, ("Error: " +:+ err)) ∈ errors) /\
  (forall name text, (name, text) ∈ errors ->
     name ∈ alias_names /\
     exists err, seen name = Raised err /\ text = "Error: " +:+ err) /\
  (forall name reply, seen name = Returned reply -> is_skip reply = false ->
     ChatMessage name reply ∈ r.1.1 /\ line name reply ∈ r.1.2) /\
  guarded_broadcast (fun f => result_of (fut_outcome f)) futures
                    (as_completed (futures.*2))
  = Ok responses /\
  (forall role p, OD.get role_agents role = Some p ->
     responses !! role
       = Some (text_of (analyze p (problem_statement state))) /\
     responses !! display_name role
       = Some (text_of (analyze p (problem_statement state)))) /\
  (forall role p err, OD.get role_agents role = Some p ->
     analyze p (problem_statement state) = Raised err ->
     responses !! role = Some ("Error: " +:+ err) /\
     responses !! display_name role = Some ("Error: " +:+ err)) /\
  (forall done_at,
     agent_responses
       (step_2_parallel_responses analyze (completion_order done_at) state)
     = responses).
Proof.
  intros Hperm r seen errors futures responses.
  assert (Hstep2 : forall role p, OD.get role_agents role = Some p ->
    responses !! role = Some (text_of (analyze p (problem_statement state))) /\
    responses !! display_name role
      = Some (text_of (analyze p (problem_statement state)))).
  { subst responses. simpl. rewrite responses_in_any_order by apply Hperm.
    intros role p Hrole. unfold role_agents in Hrole. simpl in Hrole.
    repeat case_decide; simplify_eq; split; reflexivity. }
  assert (Hguard : guarded_round (fun name => result_of (seen name))
                                 conversation_history
                   = Ok (r.1.1, r.1.2, errors)).
  { subst r seen errors. rewrite guarded_round_ok.
    unfold run_one_round, round_errors.
    by destruct (collect_round chat_response scheduler conversation_history
                               is_first_round log) as [[[ms h] es] l]. }
  subst r errors. rewrite run_one_round_eq, round_errors_eq in *.
  cbn [fst snd] in *. fold seen in Hguard |- *.
  split; [exact Hguard|]. split; [|split; [reflexivity|]].
  { intros name Hout. subst seen. unfold collected.
    apply not_finished_times_out. by rewrite submit_round_calls. }
  split; [|split; [|split; [|split; [|split; [exact Hstep2|split]]]]].
  - intros name err Halias Hseen.
    assert (Hagent : name ∉ agent <$>
      ((fun n => ChatMessage n (text_of (seen n)))
         <$> List.filter (fun n => contributes (seen n)) alias_names)).
    { intros Hin. apply list_elem_of_fmap in Hin as [m [-> Hm]].
      apply (kept_message m alias_names seen) in Hm as (_ & Hr & _).
      congruence. }
    split; [exact Hagent|]. split.
    + intros text Hin. apply list_elem_of_fmap in Hin as [m [Hline Hm]].
      pose proof Hm as Hkept.
      apply (kept_message m alias_names seen) in Hkept as (Hm_alias & _).
      apply Hagent. apply list_elem_of_fmap. exists m. split; [|exact Hm].
      unfold line_of in Hline. by eapply line_names_apart.
    + apply failures_spec. split; [done|]. by exists err.
  - intros name text Hin. by apply failures_spec in Hin.
  - intros name reply Hseen Hns.
    assert (Hin : ChatMessage name reply ∈
      (fun n => ChatMessage n (text_of (seen n)))
        <$> List.filter (fun n => contributes (seen n)) alias_names).
    { apply list_elem_of_fmap. exists name. rewrite Hseen. split; [done|].
      apply list_elem_of_In, filter_In. split.
      - apply list_elem_of_In. by eapply collected_returned_alias.
      - rewrite Hseen. simpl. by rewrite Hns. }
    split; [exact Hin|]. apply elem_of_app. right.
    apply list_elem_of_fmap. by exists (ChatMessage name reply).
  - subst responses futures. unfold guarded_broadcast.
    by rewrite guarded_record_fold.
  - intros role p err Hrole Herr.
    destruct (Hstep2 role p Hrole) as [H1 H2]. by rewrite H1, H2, Herr.
  - intros done_at. subst responses.
    cbn [agent_responses step_2_parallel_responses set_step
         set_agent_responses].
    etransitivity.
    + apply responses_in_any_order, completion_order_perm.
    + symmetry. apply responses_in_any_order, Hperm.
Qed.

(** A round in which Elon's call raises, Sam skips and Sheryl's call is not
    done in time; a step 2 in which the operator's call raises. *)
Lemma failure_is_contained_witness :
  let scheduler := fun _ : list call => ["Ray"; "Elon"; "Sam"] in
  let r := run_one_round moody scheduler ["You: hi"] true [] in
  let errors := round_errors moody scheduler ["You: hi"] true [] in
  let responses :=
    agent_responses
      (step_2_parallel_responses sample_analyze reverse
                                 (step_1_broadcast "launch?")) in
  ("Elon" ∉ (agent <$> r.1.1)) /\
  ("Elon", "Error: boom") ∈ errors /\
  ("Sheryl", "Error: ") ∈ errors /\
  ChatMessage "Ray" "noted by Ray" ∈ r.1.1 /\
  responses !! "Sheryl" = Some "Error: connection refused".
Proof.
  intros scheduler.
  destruct (failure_is_contained moody scheduler ["You: hi"]
              true [] sample_analyze reverse (step_1_broadcast "launch?")
              reverse_Permutation)
    as (_ & _ & _ & Hfail & _ & Hothers & _ & _ & Hstep2 & _).
  assert (Helon : "Elon" ∈ alias_names) by (by left).
  assert (Hsheryl : "Sheryl" ∈ alias_names) by (do 2 right; by left).
  split; [exact (proj1 (Hfail "Elon" "boom" Helon eq_refl))|].
  split; [exact (proj2 (proj2 (Hfail "Elon" "boom" Helon eq_refl)))|].
  split; [exact (proj2 (proj2 (Hfail "Sheryl" "" Hsheryl eq_refl)))|].
  split.
  - exact (proj1 (Hothers "Ray" "noted by Ray" eq_refl eq_refl)).
  - exact (proj2 (Hstep2 "Operator" operator "connection refused"
                         eq_refl eq_refl)).
Defined.

(** C6 as stated fails in the broadcast step, which has no timeout. The
    operator's call is done after 3600 units, far beyond 60: step 2 waits
    for it and stores what it returns under both keys, and no error text
    stands in for it. *)
Lemma slow_call_is_not_substituted :
  let responses :=
    agent_responses
      (step_2_parallel_responses steady_analyze
                                 (completion_order operator_is_slow)
                                 (step_1_broadcast "launch?")) in
  60 < operator_is_slow 2 /\
  responses !! "Operator" = Some "a view on launch?" /\
  responses !! "Sheryl" = Some "a view on launch?" /\
  ~ exists msg, responses !! "Operator" = Some (error_text msg).
Proof.
  intros responses.
  assert (Hop : responses !! "Operator" = Some "a view on launch?")
    by (by vm_compute).
  split; [vm_compute; lia|]. split; [exact Hop|].
  split; [by vm_compute|].
  intros [msg Hmsg]. rewrite Hop in Hmsg. discriminate Hmsg.
Qed.

(** ** Facts about the step-2.5 conversation *)

Section Debate.

Variable chat_response :
  list call -> persona -> string -> string -> string -> outcome.
Variable initial : list string.
Variable log : list call.

Lemma debate_invariant_start :
  debate_invariant initial log
    {| history := initial; said := []; calls := log |}.
Proof.
  split; simpl; [by rewrite app_nil_r|].
  exists []. rewrite app_nil_r. repeat split; done.
Qed.

Lemma debate_turn_invariant (t : talk) (item : string * persona) :
  debate_invariant initial log t ->
  debate_invariant initial log (debate_turn chat_response t item).
Proof.
  intros [Hhist (asked & Hcalls & Hlen & Hasked)].
  unfold debate_turn. split; simpl.
  - by rewrite Hhist, fmap_app, app_assoc.
  - eexists (asked ++ [_]). split; [by rewrite Hcalls, app_assoc|].
    split; [by rewrite !length_app, Hlen|].
    intros k c Hk. apply lookup_snoc_Some in Hk as [[Hlt Hk]|[-> <-]].
    + destruct (Hasked k c Hk) as (Hctx & Hprompt & Hagent).
      unfold seen_at_turn in *.
      rewrite take_app_le by lia. rewrite lookup_app_l by lia. done.
    + simpl. unfold seen_at_turn, context_of.
      rewrite Hlen, take_app_length, <- Hhist.
      rewrite lookup_app_r by lia. rewrite Nat.sub_diag. done.
Qed.

Lemma debate_round_invariant (t : talk) :
  debate_invariant initial log t ->
  debate_invariant initial log (debate_round chat_response t) /\
  length (said (debate_round chat_response t)) = length (said t) + 4.
Proof.
  intros Hinv. unfold debate_round, agents. simpl. split.
  - by do 4 apply debate_turn_invariant.
  - rewrite !length_app. simpl. lia.
Qed.

Lemma debate_rounds_invariant (n : nat) :
  let t := Nat.iter n (debate_round chat_response)
                    {| history := initial; said := []; calls := log |} in
  debate_invariant initial log t /\ length (said t) = 4 * n.
Proof.
  induction n as [|n IH]; intros t.
  - split; [apply debate_invariant_start | done].
  - subst t. rewrite Nat.iter_succ. destruct IH as [IH1 IH2].
    destruct (debate_round_invariant _ IH1) as [H1 H2].
    split; [exact H1|]. rewrite H2, IH2. lia.
Qed.

End Debate.

(** C2, on the code's terms. In [run_one_round] the four personas are handed
    one prompt and one context, both fixed by the history before the round.
    In [step_2_5_debate] the personas speak in turn: the call of turn [k]
    (counted from 0 over all the rounds) is handed the window over the
    initial lines and the [k] replies made before it, those of its own round
    included. *)
Theorem snapshot_per_round
    (chat_response : list call -> persona -> string -> string -> string -> outcome)
    (scheduler : list call -> list string) (conversation_history : list string)
    (is_first_round : bool) (log : list call)
    (state : CouncilState) (rounds : Z) :
  let r := run_one_round chat_response scheduler conversation_history
                         is_first_round log in
  let asked_in_round := round_calls is_first_round conversation_history in
  let t := debate chat_response rounds (agent_responses state) log in
  let d := step_2_5_debate chat_response state rounds log in
  r.2 = log ++ asked_in_round /\
  shares_snapshot asked_in_round /\
  Forall (fun c =>
            conversation_context c = context_of conversation_history /\
            user_message c = round_prompt is_first_round conversation_history)
         asked_in_round /\
  agent_name <$> asked_in_round = ["Elon"; "Sam"; "Sheryl"; "Ray"] /\
  d.2 = calls t /\
  group_chat d.1 = Some (default [] (group_chat state) ++ said t) /\
  length (said t) = 4 * Z.to_nat rounds /\
  exists asked, calls t = log ++ asked /\
    length asked = length (said t) /\
    forall k c, asked !! k = Some c ->
      conversation_context c
        = seen_at_turn (initial_lines (agent_responses state)) (said t) k /\
      agent <$> (said t !! k) = Some (agent_name c).
Proof.
  intros r asked_in_round t d. subst r. rewrite run_one_round_eq.
  cbn [fst snd].
  assert (Hall : Forall (fun c =>
            conversation_context c = context_of conversation_history /\
            user_message c = round_prompt is_first_round conversation_history)
         asked_in_round).
  { subst asked_in_round. unfold round_calls, agents. simpl.
    repeat constructor. }
  repeat split; try done.
  - intros c1 c2 H1 H2. rewrite Forall_forall in Hall.
    destruct (Hall c1 H1) as [-> _]. by destruct (Hall c2 H2) as [-> _].
  - destruct (debate_rounds_invariant chat_response
                (initial_lines (agent_responses state)) log
                (Z.to_nat rounds)) as [_ Hlen].
    exact Hlen.
  - destruct (debate_rounds_invariant chat_response
                (initial_lines (agent_responses state)) log
                (Z.to_nat rounds)) as [[_ (asked & Hcalls & Hlen & Hasked)] _].
    exists asked. split; [exact Hcalls|]. split; [exact Hlen|].
    intros k c Hk. by destruct (Hasked k c Hk) as (Hctx & _ & Hagent).
Qed.

(** A later round of group chat, and a debate of two rounds. *)
Lemma snapshot_per_round_witness :
  shares_snapshot (round_calls false ["You: hi"]) /\
  length (said (debate greeting 2 ∅ [])) = 8.
Proof.
  destruct (snapshot_per_round greeting (fun _ => alias_names) ["You: hi"]
              false [] (step_1_broadcast "launch?") 2)
    as (_ & Hshare & _ & _ & _ & _ & Hlen & _).
  split; [exact Hshare | exact Hlen].
Defined.

(** C2 as stated fails in step 2.5: in the first debate round Elon is handed
    the empty context and Sam a context that holds Elon's reply of that same
    round. *)
Lemma debate_round_shares_no_snapshot :
  let asked := (step_2_5_debate greeting (step_1_broadcast "launch?") 1 []).2 in
  ~ shares_snapshot asked /\
  exists c, c ∈ asked /\ agent_name c = "Sam" /\
    Str.contains "Elon: hi from Elon" (conversation_context c) = true.
Proof.
  intros asked.
  assert (H0 : asked !! 0
               = Some (Call visionary (conversation_prompt "") "" "Elon"))
    by reflexivity.
  assert (H1 : asked !! 1
               = Some (Call strategist
                            (conversation_prompt "Elon: hi from Elon")
                            "Elon: hi from Elon" "Sam"))
    by reflexivity.
  apply list_elem_of_lookup_2 in H0, H1. split.
  - intros Hshare. specialize (Hshare _ _ H0 H1). discriminate.
  - eexists. split; [exact H1|]. split; reflexivity.
Qed.

(** ** Facts about the tagged debate *)

Section TaggedDebate.

Variable chat_response :
  list call -> persona -> string -> string -> string -> outcome.
Variable participants : odict persona.
Variable user_message : string.

Lemma exchange_turns_calls (exchange : nat) (conversation_context : string)
    (items : odict persona) (t : talk) :
  length (calls (foldl (exchange_turn chat_response exchange user_message
                                      conversation_context) t items))
  = length (calls t) + length items.
Proof.
  revert t. induction items as [|item items IH]; intros t; simpl; [lia|].
  rewrite IH. unfold exchange_turn.
  destruct (chat_response _ _ _ _ _); simpl; rewrite length_app; simpl; lia.
Qed.

Lemma debate_loop_bounded (exchanges : list nat)
    (debate_history : list string) (log : list call) :
  let r := debate_loop chat_response participants user_message exchanges
                       debate_history log in
  length r.1.1 <= length exchanges /\
  (exchanges <> [] -> r.1.1 <> []) /\
  (forall i ms, r.1.1 !! i = Some ms -> closing ms = true ->
     length r.1.1 = S i) /\
  (length r.1.1 < length exchanges ->
     exists ms, last r.1.1 = Some ms /\ closing ms = true) /\
  length r.2 = length log + length r.1.1 * length participants.
Proof.
  revert debate_history log.
  induction exchanges as [|exchange later IH]; intros debate_history log.
  - simpl. repeat split; try done; try lia.
  - cbn [debate_loop].
    set (t := run_exchange chat_response participants user_message exchange
                           debate_history log).
    assert (Hcalls : length (calls t) = length log + length participants).
    { subst t. unfold run_exchange. by rewrite exchange_turns_calls. }
    destruct (bool_decide (said t <> []) && closing (said t)) eqn:Hstop.
    + apply andb_true_iff in Hstop as [_ Hclosing]. cbn [fst snd length].
      repeat split; try done; try lia.
      * intros [|i] ms Hi Hc; [done|]. by destruct i.
      * intros _. by exists (said t).
    + assert (Hopen : closing (said t) = false).
      { apply andb_false_iff in Hstop as [Hnil|Hc]; [|done].
        apply bool_decide_eq_false in Hnil.
        destruct (said t); [apply closing_nil | by exfalso; apply Hnil]. }
      specialize (IH (history t) (calls t)).
      destruct (debate_loop chat_response participants user_message later
                            (history t) (calls t)) as [[more h] l].
      cbn [fst snd length] in *.
      destruct IH as (Hlen & _ & Hstops & Hearly & Hlog).
      repeat split; try done; try lia.
      * intros [|i] ms Hi Hc; simpl in Hi.
        -- congruence.
        -- f_equal. by eapply Hstops.
      * intros Hlt. destruct Hearly as [ms [Hlast Hc]]; [lia|].
        exists ms. split; [|done]. rewrite last_cons. by rewrite Hlast.
Qed.

End TaggedDebate.

(** C3. A tagged debate with at least one participant runs at least one and
    at most three exchanges. An exchange in which a reply holds a closing
    signal (as a substring, letter case apart) is the last one run, and a
    debate that ends before the third exchange ends on such a reply. Each
    exchange run asks every participant once. *)
Theorem tagged_debate_is_bounded
    (chat_response : list call -> persona -> string -> string -> string -> outcome)
    (tagged_agents : list string) (user_message : string)
    (conversation_history : list string) (log : list call) :
  participating tagged_agents <> [] ->
  let r := debate_exchanges chat_response tagged_agents user_message
                            conversation_history log in
  let out := run_tagged_debate chat_response tagged_agents user_message
                               conversation_history log in
  let exchanges := r.1.1 in
  out.1.1 = concat exchanges /\
  out.1.2 = conversation_history ++ List.map line_of (concat exchanges) /\
  out.2 = r.2 /\
  1 <= length exchanges <= 3 /\
  (forall i ms, exchanges !! i = Some ms ->
     (exists msg, msg ∈ ms /\ closing_reply (message msg)) ->
     length exchanges = S i) /\
  (length exchanges < 3 ->
     exists ms msg, last exchanges = Some ms /\ msg ∈ ms /\
       closing_reply (message msg)) /\
  length r.2
    = length log + length exchanges * length (participating tagged_agents).
Proof.
  intros Hsome r out exchanges.
  pose proof (debate_loop_bounded chat_response
                (participating tagged_agents) user_message
                (seq 0 max_exchanges)
                (conversation_history ++ ["You: " +:+ user_message]) log)
    as (Hlen & Hnonempty & Hstops & Hearly & Hlog).
  fold (debate_exchanges chat_response tagged_agents user_message
                         conversation_history log) in *.
  fold r in Hlen, Hnonempty, Hstops, Hearly, Hlog.
  fold exchanges in Hlen, Hnonempty, Hstops, Hearly, Hlog.
  assert (Hout : out = (concat exchanges,
                        conversation_history
                          ++ List.map line_of (concat exchanges), r.2)).
  { subst out exchanges. unfold run_tagged_debate.
    destruct (participating tagged_agents) as [|p ps] eqn:Hp; [done|].
    fold r. by destruct r as [[e h] l]. }
  rewrite Hout. cbn [fst snd]. simpl in Hlen.
  repeat split; try done.
  - assert (exchanges <> []) as Hne by (by apply Hnonempty).
    destruct exchanges; [done | simpl; lia].
  - intros i ms Hi Hmsg. apply (Hstops i ms Hi). by apply closing_iff.
  - intros Hlt. destruct Hearly as [ms [Hlast Hc]]; [simpl; lia|].
    apply closing_iff in Hc as [msg [Hin Hreply]]. by exists ms, msg.
Qed.

(** Elon is offline and Ray settles the matter in the second exchange. *)
Lemma tagged_debate_is_bounded_witness :
  length (debate_exchanges settling ["Elon"; "Ray"] "ship it?" [] []).1.1 = 2.
Proof.
  destruct (tagged_debate_is_bounded settling ["Elon"; "Ray"] "ship it?" [] []
              ltac:(discriminate))
    as (_ & _ & _ & _ & Hstops & _).
  apply (Hstops 1 [ChatMessage "Ray" "That Works for me."] eq_refl).
  exists (ChatMessage "Ray" "That Works for me."). split; [left|].
  exists "that works", "", " for me.". split; [|reflexivity].
  unfold closing_signals. do 5 right. left.
Defined.

(** ** Facts about the group chat *)

Section GroupChat.

Variable chat_response :
  list call -> persona -> string -> string -> string -> outcome.
Variable scheduler : list call -> list string.

Lemma later_rounds (n : nat)
    (st : list (list chat_message) * list string * list call) :
  let r := Nat.iter n (next_round chat_response scheduler) st in
  length r.1.1 = length st.1.1 + n /\
  exists later, r.2 = st.2 ++ later /\
    length later = 4 * n /\
    Forall (fun c => user_message c = skip_prompt (conversation_context c))
           later.
Proof.
  induction n as [|n IH]; intros r.
  - subst r. simpl. split; [lia|]. exists []. by rewrite app_nil_r.
  - subst r. rewrite Nat.iter_succ.
    destruct IH as (Hlen & later & Hlog & Hfour & Hskip).
    destruct (Nat.iter n (next_round chat_response scheduler) st)
      as [[rounds h] l].
    unfold next_round. rewrite run_one_round_eq. cbn [fst snd] in *.
    split; [rewrite length_app; simpl; lia|].
    exists (later ++ round_calls false h).
    split; [by rewrite Hlog, app_assoc|].
    split; [rewrite length_app; unfold round_calls, agents; simpl; lia|].
    apply Forall_app. split; [exact Hskip|].
    unfold round_calls, agents. simpl. repeat constructor.
Qed.

End GroupChat.

(** C10. A group chat asked for [n >= 1] rounds runs exactly [n] rounds,
    whatever the personas answer: the first round hands every persona the
    user's message, and each of the [n - 1] rounds after it hands the four
    personas the prompt that allows SKIP. A round that brings no new message
    does not end the chat. *)
Theorem group_chat_runs_every_round
    (chat_response : list call -> persona -> string -> string -> string -> outcome)
    (scheduler : list call -> list string) (topic : string)
    (chat_rounds : Z) (log : list call) :
  (1 <= chat_rounds)%Z ->
  let r := chat_rounds_run chat_response scheduler topic chat_rounds
                           log in
  let out := run_group_chat chat_response scheduler topic chat_rounds
                            log in
  let first_calls := round_calls true ["You: " +:+ topic] in
  length r.1.1 = Z.to_nat chat_rounds /\
  group_chat out.1 = Some (concat r.1.1) /\
  conversation_history out.1 = Some r.1.2 /\
  out.2 = r.2 /\
  length first_calls = 4 /\
  Forall (fun c => user_message c = "You: " +:+ topic) first_calls /\
  exists later, r.2 = log ++ first_calls ++ later /\
    length later = 4 * (Z.to_nat chat_rounds - 1) /\
    Forall (fun c => user_message c = skip_prompt (conversation_context c))
           later.
Proof.
  intros Hn r out first_calls.
  assert (Hout : out = (set_conversation_history r.1.2
                          (set_group_chat (concat r.1.1)
                             (step_1_broadcast topic)), r.2)).
  { subst out. unfold run_group_chat. fold r. by destruct r as [[a b] c]. }
  rewrite Hout. cbn [fst snd].
  subst r. unfold chat_rounds_run. rewrite run_one_round_eq.
  match goal with
  | |- context [Nat.iter ?n _ ?st] =>
      destruct (later_rounds chat_response scheduler n st)
        as (Hlen & later & Hlog & Hfour & Hskip)
  end.
  cbn [fst snd length] in Hlen, Hlog.
  split; [rewrite Hlen; lia|].
  repeat split; try done.
  - unfold first_calls, round_calls, agents. simpl. repeat constructor.
  - exists later. split; [by rewrite Hlog, <- app_assoc|].
    split; [|exact Hskip]. rewrite Hfour. f_equal. lia.
Qed.

(** Three rounds are asked for and nobody speaks after the first. *)
Lemma group_chat_runs_every_round_witness :
  let rounds := (chat_rounds_run quiet (fun _ => alias_names) "hello" 3 []).1.1 in
  length rounds = 3 /\ rounds !! 1 = Some [] /\ rounds !! 2 = Some [].
Proof.
  destruct (group_chat_runs_every_round quiet (fun _ => alias_names) "hello"
              3 [] ltac:(lia))
    as (Hlen & _).
  split; [exact Hlen|]. split; reflexivity.
Defined.

(** ** Facts about the configured weights *)

Lemma keys_set {V} (d : odict V) (k : string) (v : V) :
  list_to_set (OD.keys (OD.set d k v))
  =@{gset string} list_to_set (OD.keys d) ∪ {[k]}.
Proof.
  induction d as [|[k' v'] d IH]; simpl.
  - set_solver.
  - case_decide; simpl; [subst|rewrite IH]; set_solver.
Qed.

Lemma keys_update {V} (d1 d2 : odict V) :
  list_to_set (OD.keys (OD.update d1 d2))
  =@{gset string} list_to_set (OD.keys d1) ∪ list_to_set (OD.keys d2).
Proof.
  unfold OD.update. revert d1.
  induction d2 as [|[k v] d2 IH]; intros d1; simpl.
  - set_solver.
  - rewrite IH, keys_set. set_solver.
Qed.

Lemma init_weight_keys (use_weighted : option bool)
    (custom_weights : option (odict Q)) (k : string) :
  k ∈ OD.keys (weights (init use_weighted custom_weights)) <->
  k ∈ role_names \/ k ∈ custom_keys custom_weights.
Proof.
  destruct custom_weights as [[|kv more]|].
  - change (k ∈ role_names <-> k ∈ role_names \/ k ∈ []).
    rewrite elem_of_nil. tauto.
  - change (k ∈ OD.keys (OD.update AGENT_WEIGHTS (kv :: more)) <->
            k ∈ OD.keys AGENT_WEIGHTS \/ k ∈ OD.keys (kv :: more)).
    rewrite <- (elem_of_list_to_set (C := gset string) k
                  (OD.keys (OD.update _ _))).
    by rewrite keys_update, elem_of_union, !elem_of_list_to_set.
  - change (k ∈ role_names <-> k ∈ role_names \/ k ∈ []).
    rewrite elem_of_nil. tauto.
Qed.

Lemma display_name_known (k : string) :
  k ∈ known_keys -> display_name k ∈ alias_names.
Proof.
  unfold known_keys, role_names, alias_names. simpl. intros Hk.
  set_unfold in Hk.
  destruct Hk as [->|[->|[->|[->|[->|[->|[->|[->|[]]]]]]]]];
    vm_compute; set_solver.
Qed.

Lemma display_name_other (k : string) :
  k ∉ role_names -> display_name k = k.
Proof.
  intros Hk. unfold display_name.
  destruct (OD.get AGENT_NAME_MAPPING k) as [a|] eqn:Hget; [|done].
  exfalso. apply Hk. unfold AGENT_NAME_MAPPING in Hget. simpl in Hget.
  unfold role_names, AGENT_NAME_MAPPING. simpl.
  repeat case_decide; simplify_eq; set_solver.
Qed.

Lemma alias_has_role (a : string) :
  a ∈ alias_names -> exists role, role ∈ role_names /\ display_name role = a.
Proof.
  unfold role_names, alias_names. simpl. intros Ha. set_unfold in Ha.
  destruct Ha as [->|[->|[->|[->|[]]]]].
  - exists "Visionary". split; [set_solver | reflexivity].
  - exists "Strategist". split; [set_solver | reflexivity].
  - exists "Operator". split; [set_solver | reflexivity].
  - exists "Risk Analyst". split; [set_solver | reflexivity].
Qed.

Lemma broadcast_values (analyze : persona -> string -> outcome)
    (as_completed : list future -> list future) (state : CouncilState)
    (role : string) (p : persona) :
  (forall fs, as_completed fs ≡ₚ fs) ->
  OD.get role_agents role = Some p ->
  let responses :=
    agent_responses (step_2_parallel_responses analyze as_completed state) in
  responses !! role = Some (text_of (analyze p (problem_statement state))) /\
  responses !! display_name role
    = Some (text_of (analyze p (problem_statement state))).
Proof.
  intros Hperm Hrole. simpl. rewrite responses_in_any_order by apply Hperm.
  unfold role_agents in Hrole. simpl in Hrole.
  repeat case_decide; simplify_eq; split; reflexivity.
Qed.

Lemma get_or_after_broadcast (analyze : persona -> string -> outcome)
    (as_completed : list future -> list future) (state : CouncilState)
    (role : string) (p : persona) :
  (forall fs, as_completed fs ≡ₚ fs) ->
  OD.get role_agents role = Some p ->
  get_or (agent_responses
            (step_2_parallel_responses analyze as_completed state))
         role (display_name role)
  = text_of (analyze p (problem_statement state)).
Proof.
  intros Hperm Hrole.
  destruct (broadcast_values analyze as_completed state role p Hperm Hrole)
    as [H1 H2].
  unfold get_or. rewrite H1, H2. simpl. by case_bool_decide.
Qed.

Lemma role_responses_after_broadcast (analyze : persona -> string -> outcome)
    (as_completed : list future -> list future) (state : CouncilState) :
  (forall fs, as_completed fs ≡ₚ fs) ->
  role_responses (agent_responses
                    (step_2_parallel_responses analyze as_completed state))
  = role_texts analyze (problem_statement state).
Proof.
  intros Hperm.
  set (responses := agent_responses
                      (step_2_parallel_responses analyze as_completed state)).
  change (role_responses responses)
    with [("Visionary", get_or responses "Visionary" (display_name "Visionary"));
          ("Strategist", get_or responses "Strategist" (display_name "Strategist"));
          ("Operator", get_or responses "Operator" (display_name "Operator"));
          ("Risk Analyst",
           get_or responses "Risk Analyst" (display_name "Risk Analyst"))].
  subst responses.
  rewrite (get_or_after_broadcast _ _ _ "Visionary" visionary Hperm eq_refl).
  rewrite (get_or_after_broadcast _ _ _ "Strategist" strategist Hperm eq_refl).
  rewrite (get_or_after_broadcast _ _ _ "Operator" operator Hperm eq_refl).
  by rewrite (get_or_after_broadcast _ _ _ "Risk Analyst" risk_analyst
                Hperm eq_refl).
Qed.

(** [run_council] in closed form. *)
Lemma run_council_eq (analyze : persona -> string -> outcome)
    (chat_response : list call -> persona -> string -> string -> string -> outcome)
    (synthesize : string -> odict string -> raising (gmap string value))
    (self : CouncilOrchestrator) (as_completed : list future -> list future)
    (problem : string) (log : list call) :
  let responses :=
    agent_responses (step_2_parallel_responses analyze as_completed
                                               (step_1_broadcast problem)) in
  let t := debate chat_response 2 responses log in
  run_council analyze chat_response synthesize self as_completed problem log
  = (match synthesize problem (role_responses responses) with
     | Ok output =>
         Ok {| problem_statement := problem;
               agent_responses := responses;
               synthesis_output := Some output;
               final_decision :=
                 Some (if use_weighted_model self
                       then _weighted_decision self responses output
                       else _majority_voting responses output);
               current_step := 4;
               group_chat := Some (said t);
               conversation_history := None |}
     | Raise e => Raise e
     end,
     calls t).
Proof.
  intros responses t. subst responses t.
  unfold run_council, step_3_synthesis, step_2_5_debate.
  cbn [problem_statement agent_responses set_step set_group_chat
       step_1_broadcast step_2_parallel_responses set_agent_responses].
  by destruct (synthesize problem _).
Qed.

(** The same after step 2 has stored the four role texts. *)
Lemma run_council_after_broadcast (analyze : persona -> string -> outcome)
    (chat_response : list call -> persona -> string -> string -> string -> outcome)
    (synthesize : string -> odict string -> raising (gmap string value))
    (self : CouncilOrchestrator) (as_completed : list future -> list future)
    (problem : string) (log : list call) :
  (forall fs, as_completed fs ≡ₚ fs) ->
  let responses :=
    agent_responses (step_2_parallel_responses analyze as_completed
                                               (step_1_broadcast problem)) in
  let t := debate chat_response 2 responses log in
  run_council analyze chat_response synthesize self as_completed problem log
  = (match synthesize problem (role_texts analyze problem) with
     | Ok output =>
         Ok {| problem_statement := problem;
               agent_responses := responses;
               synthesis_output := Some output;
               final_decision :=
                 Some (if use_weighted_model self
                       then _weighted_decision self responses output
                       else _majority_voting responses output);
               current_step := 4;
               group_chat := Some (said t);
               conversation_history := None |}
     | Raise e => Raise e
     end,
     calls t).
Proof.
  intros Hperm responses t. rewrite run_council_eq.
  by rewrite (role_responses_after_broadcast analyze as_completed
                (step_1_broadcast problem) Hperm).
Qed.

(** C8, on the code's terms. A weighted session ends with a decision when
    the synthesis call returns; when that call raises, [run_council] raises
    and there is no decision. In a session that ends, the response map has
    exactly the eight known keys, and the keys of the weight breakdown are
    the four aliases and every custom weight key that is no role name. So
    with custom weights keyed by role names or aliases only the breakdown
    has exactly the four aliases, and any other custom key shows in the
    breakdown as it is. *)
Theorem session_keys_are_known
    (analyze : persona -> string -> outcome)
    (chat_response : list call -> persona -> string -> string -> string -> outcome)
    (synthesize : string -> odict string -> raising (gmap string value))
    (as_completed : list future -> list future)
    (use_weighted : option bool) (custom_weights : option (odict Q))
    (problem : string) (log : list call) :
  (forall fs, as_completed fs ≡ₚ fs) ->
  use_weighted_model (init use_weighted custom_weights) = true ->
  let final :=
    (run_council analyze chat_response synthesize
                 (init use_weighted custom_weights) as_completed problem
                 log).1 in
  (forall e, synthesize problem (role_texts analyze problem) = Raise e ->
     final = Raise e) /\
  (forall output,
     synthesize problem (role_texts analyze problem) = Ok output ->
     (exists state d,
        final = Ok state /\ final_decision state = Some d /\
        weight_breakdown d = Some (session_breakdown final)) /\
     dom (session_responses final) = list_to_set known_keys /\
     (forall k, k ∈ dom (session_breakdown final) <->
        k ∈ alias_names \/
        (k ∈ custom_keys custom_weights /\ k ∉ role_names)) /\
     ((forall k, k ∈ custom_keys custom_weights -> k ∈ known_keys) ->
      dom (session_breakdown final) = list_to_set alias_names /\
      only_known_keys (session_responses final) (session_breakdown final)) /\
     (forall k, k ∈ custom_keys custom_weights -> k ∉ known_keys ->
        k ∈ dom (session_breakdown final) /\
        ~ only_known_keys (session_responses final)
                          (session_breakdown final))).
Proof.
  intros Hperm Hweighted final.
  pose proof (init_weight_keys use_weighted custom_weights) as Hconfigured.
  remember (init use_weighted custom_weights) as self eqn:Hself.
  subst final. rewrite (run_council_after_broadcast _ _ _ _ _ _ _ Hperm).
  cbn [fst]. split; [by intros e ->|]. intros output ->.
  rewrite Hweighted.
  cbn [session_responses session_breakdown final_decision agent_responses
       weight_breakdown _weighted_decision default].
  unfold id.
  set (responses := agent_responses
         (step_2_parallel_responses analyze as_completed
                                    (step_1_broadcast problem))).
  assert (Hresp : dom responses = list_to_set known_keys)
    by apply (broadcast_dom analyze as_completed (step_1_broadcast problem)
                Hperm).
  assert (Hbreak : forall k,
    k ∈ dom (foldl (breakdown_step responses) ∅ (weights self)) <->
    k ∈ alias_names \/ (k ∈ custom_keys custom_weights /\ k ∉ role_names)).
  { intros k. rewrite breakdown_dom, dom_empty_L, elem_of_union.
    rewrite elem_of_list_to_set, list_elem_of_fmap, elem_of_empty. split.
    - intros [[]|[key [-> Hkey]]].
      apply Hconfigured in Hkey as [Hkey|Hkey].
      + left. apply display_name_known. unfold known_keys.
        apply elem_of_app. by left.
      + destruct (decide (key ∈ role_names)) as [Hrole|Hrole].
        * left. apply display_name_known. unfold known_keys.
          apply elem_of_app. by left.
        * right. rewrite (display_name_other key Hrole). done.
    - intros [Ha|[Hk Hrole]]; right.
      + apply alias_has_role in Ha as [role [Hr <-]].
        exists role. split; [done|]. apply Hconfigured. by left.
      + exists k. split; [by rewrite (display_name_other k Hrole)|].
        apply Hconfigured. by right. }
  split; [by eexists _, _|]. split; [exact Hresp|]. split; [exact Hbreak|].
  split.
  - intros Hkeys.
    assert (Hdom : dom (foldl (breakdown_step responses) ∅ (weights self))
                   = list_to_set alias_names).
    { apply set_eq. intros k. rewrite Hbreak, elem_of_list_to_set. split.
      - intros [Ha|[Hk Hrole]]; [done|].
        specialize (Hkeys k Hk). unfold known_keys in Hkeys.
        apply elem_of_app in Hkeys as [Hr|Ha]; done.
      - by left. }
    split; [exact Hdom|].
    unfold only_known_keys. intros k.
    rewrite Hresp, Hdom, !elem_of_list_to_set.
    unfold known_keys. rewrite elem_of_app. tauto.
  - intros k Hk Hunknown.
    assert (Hin : k ∈ dom (foldl (breakdown_step responses) ∅ (weights self))).
    { apply Hbreak. right. split; [done|]. intros Hrole. apply Hunknown.
      unfold known_keys. apply elem_of_app. by left. }
    split; [exact Hin|]. intros Hknown. apply Hunknown, Hknown. by right.
Qed.

(** Custom weights for two roles, one of them given under its alias; and a
    session whose synthesis call raises. *)
Lemma session_keys_are_known_witness :
  dom (session_breakdown
         (run_council sample_analyze greeting (answering sample_synthesize)
            (init None (Some [("Operator", 1 # 2); ("Ray", 1 # 4)]%Q))
            reverse "launch?" []).1)
  = list_to_set alias_names /\
  (run_council sample_analyze greeting failing_synthesize (init None None)
               reverse "launch?" []).1
  = Raise (Exception "connection refused").
Proof.
  split.
  - destruct (session_keys_are_known sample_analyze greeting
                (answering sample_synthesize) reverse None
                (Some [("Operator", 1 # 2); ("Ray", 1 # 4)]%Q)
                "launch?" [] reverse_Permutation eq_refl)
      as (_ & Hends).
    destruct (Hends _ eq_refl) as (_ & _ & _ & Hknown & _).
    apply Hknown. intros k Hk. unfold custom_keys in Hk. simpl in Hk.
    unfold known_keys, role_names, alias_names. simpl.
    apply elem_of_cons in Hk as [->|Hk];
      [|apply elem_of_cons in Hk as [->|Hk]].
    + do 2 right. left.
    + do 7 right. left.
    + by apply not_elem_of_nil in Hk.
  - exact (proj1 (session_keys_are_known sample_analyze greeting
                    failing_synthesize reverse None None "launch?" []
                    reverse_Permutation eq_refl) _ eq_refl).
Defined.

(** C8 as stated fails: a custom weight under a key that is no role shows in
    the weight breakdown of the session under that very key. *)
Lemma unknown_weight_key_reaches_breakdown :
  let final :=
    (run_council sample_analyze greeting (answering sample_synthesize)
       (init (Some true) (Some [("Intern", 1)]%Q)) reverse "launch?" []).1 in
  "Intern" ∈ dom (session_breakdown final) /\
  ~ only_known_keys (session_responses final) (session_breakdown final).
Proof.
  intros final.
  assert (Hin : "Intern" ∈ dom (session_breakdown final)).
  { apply elem_of_dom. eexists. by vm_compute. }
  split; [exact Hin|]. intros Hknown.
  assert (Hk : "Intern" ∈ known_keys) by (apply Hknown; by right).
  vm_compute in Hk. set_unfold in Hk. naive_solver.
Qed.

(** ** Further facts: dictionaries and the configuration *)

Lemma get_set_eq {V} (d : odict V) (k : string) (v : V) :
  OD.get (OD.set d k v) k = Some v.
Proof.
  induction d as [|[k' v'] d IH]; simpl.
  - by rewrite decide_True.
  - destruct (decide (k' = k)) as [->|Hne]; simpl.
    + by rewrite decide_True.
    + by rewrite decide_False.
Qed.

Lemma get_set_ne {V} (d : odict V) (k k' : string) (v : V) :
  k <> k' -> OD.get (OD.set d k v) k' = OD.get d k'.
Proof.
  intros Hne. induction d as [|[k0 v0] d IH]; simpl.
  - by rewrite decide_False.
  - destruct (decide (k0 = k)) as [->|Hk]; simpl.
    + by rewrite !decide_False.
    + by rewrite IH.
Qed.

Lemma get_None {V} (d : odict V) (k : string) :
  k ∉ OD.keys d -> OD.get d k = None.
Proof.
  induction d as [|[k' v'] d IH]; simpl; [done|].
  intros Hout. apply not_elem_of_cons in Hout as [Hne Hout].
  rewrite decide_False by done. by apply IH.
Qed.

Lemma get_Some_in {V} (d : odict V) (k : string) (v : V) :
  OD.get d k = Some v -> (k, v) ∈ d.
Proof.
  induction d as [|[k' v'] d IH]; simpl; [done|].
  case_decide as Hk; intros H.
  - simplify_eq. left.
  - right. by apply IH.
Qed.

(** A stored key keeps its place; a new key goes to the end. *)
Lemma keys_set_list {V} (d : odict V) (k : string) (v : V) :
  OD.keys (OD.set d k v)
  = if bool_decide (k ∈ OD.keys d) then OD.keys d else OD.keys d ++ [k].
Proof.
  induction d as [|[k' v'] d IH]; simpl; [done|].
  destruct (decide (k' = k)) as [->|Hne]; simpl.
  - rewrite bool_decide_eq_true_2; [done | left].
  - rewrite IH. destruct (decide (k ∈ OD.keys d)) as [Hin|Hout].
    + rewrite !bool_decide_eq_true_2; [done | by right | done].
    + rewrite !bool_decide_eq_false_2; [done | | done].
      intros Hin. apply elem_of_cons in Hin as [->|Hin]; done.
Qed.

Lemma keys_update_prefix {V} (d1 d2 : odict V) :
  NoDup (OD.keys d1) ->
  NoDup (OD.keys (OD.update d1 d2)) /\
  exists extra, OD.keys (OD.update d1 d2) = OD.keys d1 ++ extra.
Proof.
  unfold OD.update. revert d1.
  induction d2 as [|[k v] d2 IH]; intros d1 Hnd; simpl.
  - split; [done|]. exists []. by rewrite app_nil_r.
  - assert (Hset : NoDup (OD.keys (OD.set d1 k v)) /\
                   exists more, OD.keys (OD.set d1 k v) = OD.keys d1 ++ more).
    { rewrite keys_set_list. case_bool_decide as Hin.
      - split; [done|]. exists []. by rewrite app_nil_r.
      - split; [|by exists [k]]. apply NoDup_app. split; [done|].
        split; [|apply NoDup_singleton].
        intros x Hx Hk. apply list_elem_of_singleton in Hk. by subst. }
    destruct Hset as [Hnd' [more Hmore]].
    destruct (IH _ Hnd') as [Hnd'' [extra Hextra]].
    split; [done|]. exists (more ++ extra).
    by rewrite Hextra, Hmore, app_assoc.
Qed.

Lemma get_update {V} (d1 d2 : odict V) (k : string) :
  NoDup (OD.keys d2) ->
  OD.get (OD.update d1 d2) k
  = match OD.get d2 k with
    | Some v => Some v
    | None => OD.get d1 k
    end.
Proof.
  unfold OD.update. revert d1.
  induction d2 as [|[k0 v0] d2 IH]; intros d1 Hnd; simpl; [done|].
  apply NoDup_cons in Hnd as [Hk0 Hnd]. rewrite IH by done.
  destruct (decide (k0 = k)) as [->|Hne].
  - rewrite get_None by done. apply get_set_eq.
  - destruct (OD.get d2 k); [done|]. by apply get_set_ne.
Qed.

(** X15. With custom weights (a dictionary, so with distinct keys), the
    weight configured for a key is the custom one when there is one and the
    default otherwise; the four roles stay at the head of the weights, in
    their order, and no key occurs twice. *)
Theorem custom_weights_override (use_weighted : option bool)
    (custom_weights : odict Q) :
  NoDup (OD.keys custom_weights) ->
  let configured := weights (init use_weighted (Some custom_weights)) in
  (forall k, OD.get configured k
             = match OD.get custom_weights k with
               | Some w => Some w
               | None => OD.get AGENT_WEIGHTS k
               end) /\
  NoDup (OD.keys configured) /\
  take 4 (OD.keys configured) = role_names.
Proof.
  intros Hnd configured. subst configured.
  assert (Hdefault : NoDup (OD.keys AGENT_WEIGHTS)).
  { apply (bool_decide_unpack _). by vm_compute. }
  destruct custom_weights as [|kv more]; [by repeat split|].
  change (weights (init use_weighted (Some (kv :: more))))
    with (OD.update AGENT_WEIGHTS (kv :: more)).
  destruct (keys_update_prefix AGENT_WEIGHTS (kv :: more) Hdefault)
    as [Hnd' [extra Hextra]].
  split; [|split; [exact Hnd'|]].
  - intros k. by apply get_update.
  - rewrite Hextra. reflexivity.
Qed.

(** The operator's weight is replaced and a fifth key is added. *)
Lemma custom_weights_override_witness :
  let configured :=
    weights (init None (Some [("Operator", 1 # 2); ("Intern", 1 # 10)]%Q)) in
  OD.get configured "Operator" = Some (1 # 2)%Q /\
  OD.get configured "Visionary" = Some (35 # 100)%Q /\
  take 4 (OD.keys configured) = role_names.
Proof.
  destruct (custom_weights_override None
              [("Operator", 1 # 2); ("Intern", 1 # 10)]%Q)
    as (Hget & _ & Hhead).
  - apply (bool_decide_unpack _). by vm_compute.
  - split; [exact (Hget "Operator")|]. split; [exact (Hget "Visionary")|].
    exact Hhead.
Defined.

Lemma display_name_source (k a : string) :
  display_name k = a -> k ∈ role_names \/ k = a.
Proof.
  unfold display_name.
  destruct (OD.get AGENT_NAME_MAPPING k) as [alias|] eqn:Hget; cbn [default].
  - intros _. left. by apply (get_in_keys AGENT_NAME_MAPPING k alias).
  - by right.
Qed.

Lemma alias_is_no_role (a : string) : a ∈ alias_names -> a ∉ role_names.
Proof.
  unfold alias_names, role_names. simpl. intros Ha Hr.
  set_unfold in Ha. set_unfold in Hr.
  destruct Ha as [->|[->|[->|[->|[]]]]];
    destruct Hr as [Hr|[Hr|[Hr|[Hr|[]]]]]; discriminate.
Qed.

Lemma fold_display_other {V} (g : string * Q -> V) (ws : odict Q)
    (acc : gmap string V) (a : string) :
  Forall (fun kv => display_name kv.1 <> a) ws ->
  foldl (fun m kv => <[display_name kv.1 := g kv]> m) acc ws !! a = acc !! a.
Proof.
  revert acc. induction ws as [|kv ws IH]; intros acc Hall; [done|].
  apply Forall_cons in Hall as [Hkv Hall]. simpl.
  rewrite IH by done. by apply lookup_insert_ne.
Qed.

(** The last key that is shown under an alias decides the entry. *)
Lemma fold_display_last {V} (g : string * Q -> V) (pre post : odict Q)
    (kv : string * Q) (acc : gmap string V) :
  Forall (fun kv' => display_name kv'.1 <> display_name kv.1) post ->
  foldl (fun m kv => <[display_name kv.1 := g kv]> m) acc (pre ++ kv :: post)
    !! display_name kv.1 = Some (g kv).
Proof.
  intros Hpost. rewrite foldl_app. simpl.
  rewrite fold_display_other by done. apply lookup_insert_eq.
Qed.

(** Where an alias-keyed custom weight sits among the configured weights:
    behind the four roles, and behind it no key is shown under that alias. *)
Lemma alias_weight_position (use_weighted : option bool)
    (custom_weights : odict Q) (a : string) (w : Q) :
  NoDup (OD.keys custom_weights) -> a ∈ alias_names ->
  OD.get custom_weights a = Some w ->
  exists pre post,
    weights (init use_weighted (Some custom_weights)) = pre ++ (a, w) :: post /\
    Forall (fun kv => display_name kv.1 <> a) post.
Proof.
  intros Hnd Ha Hget.
  assert (Hdefault : NoDup (OD.keys AGENT_WEIGHTS)).
  { apply (bool_decide_unpack _). by vm_compute. }
  destruct custom_weights as [|kv more]; [done|].
  change (weights (init use_weighted (Some (kv :: more))))
    with (OD.update AGENT_WEIGHTS (kv :: more)).
  set (ws := OD.update AGENT_WEIGHTS (kv :: more)).
  destruct (keys_update_prefix AGENT_WEIGHTS (kv :: more) Hdefault)
    as [Hnd' [extra Hextra]]. fold ws in Hnd', Hextra.
  assert (Hin : (a, w) ∈ ws).
  { apply get_Some_in. unfold ws. by rewrite get_update, Hget. }
  apply list_elem_of_split in Hin as (pre & post & Hsplit).
  exists pre, post. split; [exact Hsplit|].
  assert (Hkeys : OD.keys ws = OD.keys pre ++ a :: OD.keys post).
  { unfold OD.keys. by rewrite Hsplit, fmap_app. }
  rewrite Hkeys in Hnd', Hextra.
  apply NoDup_app in Hnd' as (_ & Hapart & Hnd').
  apply NoDup_cons in Hnd' as [Hafter _].
  assert (Hlen : 4 <= length (OD.keys pre)).
  { destruct (decide (4 <= length (OD.keys pre))) as [|Hshort]; [done|].
    exfalso. apply (alias_is_no_role a Ha).
    assert (Hat : (OD.keys pre ++ a :: OD.keys post)
                    !! length (OD.keys pre) = Some a).
    { by rewrite lookup_app_r, Nat.sub_diag by lia. }
    rewrite Hextra in Hat.
    change (OD.keys AGENT_WEIGHTS) with role_names in Hat.
    rewrite lookup_app_l in Hat by (unfold role_names; simpl; lia).
    by eapply list_elem_of_lookup_2. }
  assert (Hroles : forall r, r ∈ role_names -> r ∈ OD.keys pre).
  { intros r Hr.
    assert (Htake : take 4 (OD.keys pre ++ a :: OD.keys post) = role_names)
      by (by rewrite Hextra).
    rewrite take_app_le in Htake by done. rewrite <- Htake in Hr.
    exact (subseteq_take 4 _ r Hr). }
  apply Forall_forall. intros [k q] Hk Hshown. simpl in Hshown.
  assert (Hkpost : k ∈ OD.keys post).
  { unfold OD.keys. apply list_elem_of_fmap. by exists (k, q). }
  apply display_name_source in Hshown as [Hrole| ->]; [|done].
  apply (Hapart k); [by apply Hroles | by right].
Qed.

(** X16. A custom weight given under an alias (with the role's own weight
    left in place, as the constructor keeps both keys) is the one that the
    weighted decision shows for that alias, in [weights_used] and in
    [weight_breakdown]; the preview next to it is the one of the response
    stored under the alias. *)
Theorem alias_weight_wins (use_weighted : option bool)
    (custom_weights : odict Q) (agent_responses : gmap string string)
    (synthesis_output : gmap string value) (a : string) (w : Q) :
  NoDup (OD.keys custom_weights) -> a ∈ alias_names ->
  OD.get custom_weights a = Some w ->
  let d := _weighted_decision (init use_weighted (Some custom_weights))
                              agent_responses synthesis_output in
  (exists used, weights_used d = Some used /\ used !! a = Some w) /\
  (exists breakdown, weight_breakdown d = Some breakdown /\
     breakdown !! a
     = Some {| weight := w;
               response_preview := preview (get_or agent_responses a a) |}).
Proof.
  intros Hnd Ha Hget d.
  destruct (alias_weight_position use_weighted custom_weights a w Hnd Ha Hget)
    as (pre & post & Hsplit & Hpost).
  assert (Hself : display_name a = a).
  { unfold display_name. rewrite get_None; [done|].
    by apply alias_is_no_role. }
  split.
  - eexists. split; [reflexivity|]. unfold renamed_weights. rewrite Hsplit.
    pose proof (fold_display_last (fun kv => kv.2) pre post (a, w) ∅) as Hlast.
    simpl in Hlast. rewrite Hself in Hlast. by apply Hlast.
  - eexists. split; [reflexivity|]. rewrite Hsplit.
    pose proof (fold_display_last
      (fun kv => {| weight := kv.2;
                    response_preview :=
                      preview (get_or agent_responses kv.1
                                      (display_name kv.1)) |})
      pre post (a, w) ∅) as Hlast.
    simpl in Hlast. rewrite Hself in Hlast. by apply Hlast.
Qed.

(** A weight for "Elon" beside the default weight of the Visionary. *)
Lemma alias_weight_wins_witness :
  let d := _weighted_decision (init None (Some [("Elon", 9 # 10)]%Q))
                              ∅ ∅ in
  exists used, weights_used d = Some used /\ used !! "Elon" = Some (9 # 10)%Q.
Proof.
  refine (proj1 (alias_weight_wins None [("Elon", 9 # 10)]%Q ∅ ∅ "Elon"
                   (9 # 10)%Q _ _ eq_refl)).
  - apply (bool_decide_unpack _). by vm_compute.
  - left.
Defined.

Lemma reverse_untouched (mapping acc : odict string) (v : string) :
  v ∉ mapping.*2 ->
  OD.get (foldl (fun d kv => OD.set d kv.2 kv.1) acc mapping) v = OD.get acc v.
Proof.
  revert acc. induction mapping as [|[k0 v0] mapping IH]; intros acc Hout;
    [done|].
  simpl in *. apply not_elem_of_cons in Hout as [Hne Hout].
  rewrite IH by done. by apply get_set_ne.
Qed.

(** X17. Reversing a mapping whose values are distinct gives, for every
    entry, the key back from the value; for the configured table, the
    reverse mapping takes every alias to its role and [display_name] takes
    that role back to the alias. *)
Theorem reverse_mapping_round_trip (mapping : odict string) :
  NoDup (mapping.*2) ->
  (forall k v, (k, v) ∈ mapping ->
     OD.get (reverse_mapping mapping) v = Some k) /\
  OD.keys get_reverse_agent_mapping = alias_names /\
  (forall role, role ∈ role_names ->
     OD.get get_reverse_agent_mapping (display_name role) = Some role) /\
  (forall alias role, OD.get get_reverse_agent_mapping alias = Some role ->
     display_name role = alias).
Proof.
  intros Hnd. split; [|split; [reflexivity|split]].
  - unfold reverse_mapping. generalize (@nil (string * string)).
    induction mapping as [|[k0 v0] mapping IH]; intros acc k v Hin;
      [by apply elem_of_nil in Hin|].
    simpl in *. apply NoDup_cons in Hnd as [Hv0 Hnd].
    apply elem_of_cons in Hin as [[= -> ->]|Hin].
    + rewrite reverse_untouched by done. apply get_set_eq.
    + by apply IH.
  - unfold role_names. simpl. intros role Hrole. set_unfold in Hrole.
    destruct Hrole as [->|[->|[->|[->|[]]]]]; reflexivity.
  - intros alias role. unfold get_reverse_agent_mapping. simpl.
    repeat case_decide; intros [= <-]; subst; reflexivity.
Qed.

(** On the configured table. *)
Lemma reverse_mapping_round_trip_witness :
  OD.get (reverse_mapping AGENT_NAME_MAPPING) "Sheryl" = Some "Operator".
Proof.
  refine (proj1 (reverse_mapping_round_trip AGENT_NAME_MAPPING _)
                "Operator" "Sheryl" _).
  - apply (bool_decide_unpack _). by vm_compute.
  - do 2 right. left.
Defined.

(** ** Further facts: the protocol of [run_council] *)

(** X11. The synthesis client is always handed exactly the four roles, in
    their order, whatever keys the response map holds: for each role the
    response stored under the role, or, when that one is missing or empty,
    the one stored under the alias, or the empty text. After step 2 these
    are the texts of the four calls. *)
Theorem synthesis_input_has_four_roles
    (analyze : persona -> string -> outcome)
    (as_completed : list future -> list future) (state : CouncilState)
    (responses : gmap string string) :
  (forall fs, as_completed fs ≡ₚ fs) ->
  OD.keys (role_responses responses) = role_names /\
  (forall role alias text, (role, alias) ∈ AGENT_NAME_MAPPING ->
     responses !! role = Some text -> text <> "" ->
     OD.get (role_responses responses) role = Some text) /\
  (forall role alias, (role, alias) ∈ AGENT_NAME_MAPPING ->
     responses !! role = None \/ responses !! role = Some "" ->
     OD.get (role_responses responses) role
     = Some (default "" (responses !! alias))) /\
  role_responses (agent_responses
                    (step_2_parallel_responses analyze as_completed state))
  = role_texts analyze (problem_statement state).
Proof.
  intros Hperm. split; [reflexivity|].
  split; [|split; [|by apply role_responses_after_broadcast]].
  - intros role alias text Hin Hrole Hne. unfold AGENT_NAME_MAPPING in Hin.
    repeat (apply elem_of_cons in Hin as [[= -> ->]|Hin]);
      [..|by apply elem_of_nil in Hin];
      unfold role_responses; simpl; repeat f_equal;
      unfold get_or; rewrite Hrole; by rewrite bool_decide_eq_false_2.
  - intros role alias Hin Hrole. unfold AGENT_NAME_MAPPING in Hin.
    repeat (apply elem_of_cons in Hin as [[= -> ->]|Hin]);
      [..|by apply elem_of_nil in Hin];
      unfold role_responses; simpl; repeat f_equal;
      unfold get_or; destruct Hrole as [->| ->]; reflexivity.
Qed.

(** The operator's call raises; a map that holds only an alias. *)
Lemma synthesis_input_has_four_roles_witness :
  role_responses
    (agent_responses
       (step_2_parallel_responses sample_analyze reverse
                                  (step_1_broadcast "launch?")))
  = [("Visionary", "a view on launch?"); ("Strategist", "a view on launch?");
     ("Operator", "Error: connection refused");
     ("Risk Analyst", "a view on launch?")] /\
  OD.get (role_responses {[ "Ray" := "beware" ]}) "Risk Analyst"
  = Some "beware".
Proof.
  destruct (synthesis_input_has_four_roles sample_analyze reverse
              (step_1_broadcast "launch?") {[ "Ray" := "beware" ]}
              reverse_Permutation)
    as (_ & _ & Hfallback & Hafter).
  split; [exact Hafter|].
  apply (Hfallback "Risk Analyst" "Ray"); [do 3 right; left | by left].
Defined.

(** X12. The full protocol makes its eight [chat_response] calls and then
    asks for the synthesis of the four role texts of step 2. When that call
    returns, the protocol ends with a decision: the final state carries the
    problem, step 4, the eight messages of the two debate rounds (the four
    aliases in order, twice), the synthesis output and the decision of the
    configured strategy on it, and no conversation history. When that call
    raises, [run_council] raises the same exception and returns no state. *)
Theorem run_council_completes (analyze : persona -> string -> outcome)
    (chat_response : list call -> persona -> string -> string -> string -> outcome)
    (synthesize : string -> odict string -> raising (gmap string value))
    (self : CouncilOrchestrator) (as_completed : list future -> list future)
    (problem : string) (log : list call) :
  (forall fs, as_completed fs ≡ₚ fs) ->
  let out := run_council analyze chat_response synthesize self as_completed
                         problem log in
  let answer := synthesize problem (role_texts analyze problem) in
  length out.2 = length log + 8 /\
  (forall e, answer = Raise e -> out.1 = Raise e) /\
  (forall output, answer = Ok output ->
     exists state chat d,
       out.1 = Ok state /\
       problem_statement state = problem /\
       current_step state = 4%Q /\
       conversation_history state = None /\
       group_chat state = Some chat /\
       agent <$> chat = alias_names ++ alias_names /\
       synthesis_output state = Some output /\
       final_decision state = Some d /\
       method d = (if use_weighted_model self
                   then "weighted_model" else "majority_voting") /\
       recommended_options d
       = default (VList []) (output !! "final_options")).
Proof.
  intros Hperm out answer. subst out.
  rewrite (run_council_after_broadcast _ _ _ _ _ _ _ Hperm). fold answer.
  set (responses := agent_responses
         (step_2_parallel_responses analyze as_completed
                                    (step_1_broadcast problem))).
  destruct (debate_rounds_invariant chat_response (initial_lines responses)
              log 2) as [[_ (asked & Hcalls & Hlen & _)] Hsaid].
  cbn [fst snd]. split; [|split].
  - unfold debate in Hcalls, Hlen, Hsaid |- *.
    change (Z.to_nat 2) with 2. rewrite Hcalls, length_app, Hlen, Hsaid. lia.
  - by intros e ->.
  - intros output ->. eexists _, _, _.
    cbn [problem_statement current_step conversation_history group_chat
         synthesis_output final_decision].
    repeat split; try reflexivity; by destruct (use_weighted_model self).
Qed.

(** With the sample collaborators and the default configuration: a synthesis
    client that answers, and one that cannot reach its model. *)
Lemma run_council_completes_witness :
  (exists state,
     (run_council sample_analyze greeting (answering sample_synthesize)
                  (init None None) reverse "launch?" []).1 = Ok state /\
     current_step state = 4%Q) /\
  (run_council sample_analyze greeting failing_synthesize (init None None)
               reverse "launch?" []).1
  = Raise (Exception "connection refused").
Proof.
  split.
  - destruct (run_council_completes sample_analyze greeting
                (answering sample_synthesize) (init None None) reverse
                "launch?" [] reverse_Permutation)
      as (_ & _ & Hends).
    destruct (Hends _ eq_refl) as (state & chat & d & Hout & _ & Hstep & _).
    exists state. split; [exact Hout | exact Hstep].
  - exact (proj1 (proj2 (run_council_completes sample_analyze greeting
                           failing_synthesize (init None None) reverse
                           "launch?" [] reverse_Permutation)) _ eq_refl).
Defined.

(** X13. Under the default weights, when the synthesis call returns, the
    weighted decision of the protocol holds under each alias the default
    weight of its role and the preview of that role's step-2 text (the error
    text when the call raised). *)
Theorem default_breakdown_entries (analyze : persona -> string -> outcome)
    (chat_response : list call -> persona -> string -> string -> string -> outcome)
    (synthesize : string -> odict string -> raising (gmap string value))
    (self : CouncilOrchestrator) (as_completed : list future -> list future)
    (problem : string) (log : list call)
    (role : string) (p : persona) (w : Q) (output : gmap string value) :
  (forall fs, as_completed fs ≡ₚ fs) ->
  synthesize problem (role_texts analyze problem) = Ok output ->
  use_weighted_model self = true -> weights self = AGENT_WEIGHTS ->
  OD.get role_agents role = Some p -> OD.get AGENT_WEIGHTS role = Some w ->
  let final := (run_council analyze chat_response synthesize self
                            as_completed problem log).1 in
  exists state d breakdown,
    final = Ok state /\ final_decision state = Some d /\
    weight_breakdown d = Some breakdown /\
    breakdown !! display_name role
    = Some {| weight := w;
              response_preview := preview (text_of (analyze p problem)) |}.
Proof.
  intros Hperm Hanswer Hflag Hweights Hrole Hw final. subst final.
  rewrite (run_council_after_broadcast _ _ _ _ _ _ _ Hperm), Hanswer.
  cbn [fst]. eexists _, _, _. split; [reflexivity|].
  cbn [final_decision]. split; [reflexivity|]. rewrite Hflag.
  cbn [weight_breakdown _weighted_decision]. split; [reflexivity|].
  rewrite Hweights.
  set (responses := agent_responses
         (step_2_parallel_responses analyze as_completed
                                    (step_1_broadcast problem))).
  pose proof (fun r q Hr =>
    get_or_after_broadcast analyze as_completed (step_1_broadcast problem)
                           r q Hperm Hr) as Htext.
  fold responses in Htext.
  set (g := fun kv : string * Q =>
         {| weight := kv.2;
            response_preview :=
              preview (get_or responses kv.1 (display_name kv.1)) |}).
  change (foldl (breakdown_step responses) ∅ AGENT_WEIGHTS)
    with (foldl (fun (m : gmap string weight_entry) kv =>
                   <[display_name kv.1 := g kv]> m)
                (∅ : gmap string weight_entry) AGENT_WEIGHTS).
  unfold role_agents in Hrole. unfold AGENT_WEIGHTS in Hw. simpl in Hrole, Hw.
  assert (Hothers : forall pre post kv,
    Forall (fun kv' => display_name kv'.1 <> display_name kv.1) post ->
    AGENT_WEIGHTS = pre ++ kv :: post ->
    foldl (fun (m : gmap string weight_entry) kv =>
             <[display_name kv.1 := g kv]> m)
          (∅ : gmap string weight_entry) AGENT_WEIGHTS !! display_name kv.1
    = Some (g kv)).
  { intros pre post kv Hpost ->. by apply fold_display_last. }
  repeat case_decide; simplify_eq.
  - etransitivity;
      [exact (Hothers [] (tail AGENT_WEIGHTS) ("Visionary", (35 # 100)%Q)
                ltac:(apply (bool_decide_unpack _); by vm_compute) eq_refl)|].
    unfold g. cbn [fst snd]. by rewrite (Htext "Visionary" visionary eq_refl).
  - etransitivity;
      [exact (Hothers (take 1 AGENT_WEIGHTS) (drop 2 AGENT_WEIGHTS) ("Strategist", (30 # 100)%Q)
                ltac:(apply (bool_decide_unpack _); by vm_compute) eq_refl)|].
    unfold g. cbn [fst snd]. by rewrite (Htext "Strategist" strategist eq_refl).
  - etransitivity;
      [exact (Hothers (take 2 AGENT_WEIGHTS) (drop 3 AGENT_WEIGHTS) ("Operator", (20 # 100)%Q)
                ltac:(apply (bool_decide_unpack _); by vm_compute) eq_refl)|].
    unfold g. cbn [fst snd]. by rewrite (Htext "Operator" operator eq_refl).
  - etransitivity;
      [exact (Hothers (take 3 AGENT_WEIGHTS) [] ("Risk Analyst", (15 # 100)%Q)
                ltac:(apply (bool_decide_unpack _); by vm_compute) eq_refl)|].
    unfold g. cbn [fst snd]. by rewrite (Htext "Risk Analyst" risk_analyst eq_refl).
Qed.

(** The operator's call raised. *)
Lemma default_breakdown_entries_witness :
  session_breakdown
    (run_council sample_analyze greeting (answering sample_synthesize)
                 (init None None) reverse "launch?" []).1 !! "Sheryl"
  = Some {| weight := (20 # 100)%Q;
            response_preview := "Error: connection refused" |}.
Proof.
  destruct (default_breakdown_entries sample_analyze greeting
              (answering sample_synthesize) (init None None) reverse
              "launch?" [] "Operator" operator (20 # 100)%Q _
              reverse_Permutation eq_refl eq_refl eq_refl eq_refl eq_refl)
    as (state & d & breakdown & Hfinal & Hd & Hb & Hentry).
  rewrite Hfinal. cbn [session_breakdown]. rewrite Hd, Hb. exact Hentry.
Defined.

(** X14. With majority voting, when the synthesis call returns, the decision
    of the protocol holds a preview under every key of the response map, so
    each role's text is previewed twice, under the role and under the alias;
    it carries no weights. *)
Theorem majority_previews_every_key (analyze : persona -> string -> outcome)
    (chat_response : list call -> persona -> string -> string -> string -> outcome)
    (synthesize : string -> odict string -> raising (gmap string value))
    (self : CouncilOrchestrator) (as_completed : list future -> list future)
    (problem : string) (log : list call) (output : gmap string value) :
  (forall fs, as_completed fs ≡ₚ fs) ->
  synthesize problem (role_texts analyze problem) = Ok output ->
  use_weighted_model self = false ->
  let out := run_council analyze chat_response synthesize self as_completed
                         problem log in
  exists state d shown,
    out.1 = Ok state /\ final_decision state = Some d /\
    method d = "majority_voting" /\
    weights_used d = None /\ weight_breakdown d = None /\
    previews d = Some shown /\
    dom shown = list_to_set known_keys /\
    forall role p, OD.get role_agents role = Some p ->
      shown !! role = Some (preview (text_of (analyze p problem))) /\
      shown !! display_name role
        = Some (preview (text_of (analyze p problem))).
Proof.
  intros Hperm Hanswer Hflag out. subst out.
  rewrite (run_council_after_broadcast _ _ _ _ _ _ _ Hperm), Hanswer, Hflag.
  eexists _, _, _. cbn [fst final_decision].
  repeat split; try reflexivity.
  - unfold majority_previews. rewrite dom_fmap_L.
    by apply (broadcast_dom analyze as_completed (step_1_broadcast problem)).
  - unfold majority_previews. rewrite lookup_fmap.
    destruct (broadcast_values analyze as_completed (step_1_broadcast problem)
                role p Hperm H) as [-> _]. done.
  - unfold majority_previews. rewrite lookup_fmap.
    destruct (broadcast_values analyze as_completed (step_1_broadcast problem)
                role p Hperm H) as [_ ->]. done.
Qed.

(** Majority voting chosen at construction. *)
Lemma majority_previews_every_key_witness :
  exists state d shown,
    (run_council sample_analyze greeting (answering sample_synthesize)
                 (init (Some false) None) reverse "launch?" []).1 = Ok state /\
    final_decision state = Some d /\ previews d = Some shown /\
    shown !! "Operator" = Some "Error: connection refused" /\
    shown !! "Sheryl" = Some "Error: connection refused".
Proof.
  destruct (majority_previews_every_key sample_analyze greeting
              (answering sample_synthesize) (init (Some false) None) reverse
              "launch?" [] _ reverse_Permutation eq_refl eq_refl)
    as (state & d & shown & Hout & Hd & _ & _ & _ & Hshown & _ & Hkeys).
  exists state, d, shown. split; [exact Hout|]. split; [exact Hd|].
  split; [exact Hshown|]. exact (Hkeys "Operator" operator eq_refl).
Defined.

(** ** Further facts: one round *)

Lemma filter_none {A} (f : A -> bool) (l : list A) :
  Forall (fun x => f x = false) l -> List.filter f l = [].
Proof.
  induction 1 as [|x l Hx _ IH]; simpl; [done|]. by rewrite Hx.
Qed.

(** X3. The prompt of a first round is the last line of the history that
    starts with "You:", however far back it lies; without such a line it is
    the first line of the history, and the empty text for an empty history.
    In particular a line just appended for the user is the prompt. *)
Theorem first_round_prompt_is_last_user_line (history : list string) :
  (forall before l after, history = before ++ l :: after ->
     Str.startswith l "You:" = true ->
     Forall (fun x => Str.startswith x "You:" = false) after ->
     first_round_prompt history = l) /\
  (Forall (fun x => Str.startswith x "You:" = false) history ->
     first_round_prompt history = default "" (head history)) /\
  (forall typed, first_round_prompt (history ++ ["You: " +:+ typed])
                 = "You: " +:+ typed) /\
  first_round_prompt [] = "".
Proof.
  assert (Hlast : forall h before l after, h = before ++ l :: after ->
     Str.startswith l "You:" = true ->
     Forall (fun x => Str.startswith x "You:" = false) after ->
     first_round_prompt h = l).
  { intros h before l after -> Hl Hafter. unfold first_round_prompt.
    rewrite List.filter_app. simpl. rewrite Hl, (filter_none _ after Hafter).
    by rewrite last_snoc. }
  split; [apply Hlast|]. split; [|split; [|reflexivity]].
  - intros Hnone. unfold first_round_prompt. by rewrite filter_none.
  - intros typed. by apply (Hlast _ history _ []).
Qed.

(** The user's question lies three lines back. *)
Lemma first_round_prompt_is_last_user_line_witness :
  first_round_prompt ["You: launch?"; "Elon: yes"; "Ray: wait"; "Sam: maybe"]
  = "You: launch?".
Proof.
  refine (proj1 (first_round_prompt_is_last_user_line
                   ["You: launch?"; "Elon: yes"; "Ray: wait"; "Sam: maybe"])
                [] "You: launch?" ["Elon: yes"; "Ray: wait"; "Sam: maybe"]
                eq_refl eq_refl _).
  repeat constructor.
Defined.

Lemma last_n_recent {A} (older recent : list A) :
  length recent = 10 -> Str.last_n 10 (older ++ recent) = recent.
Proof.
  intros Hlen. unfold Str.last_n. rewrite length_app, Hlen.
  destruct older as [|x older].
  - done.
  - rewrite (proj2 (Nat.ltb_lt _ _)) by (simpl; lia).
    replace (length (x :: older) + 10 - 10) with (length (x :: older)) by lia.
    by rewrite drop_app_length.
Qed.

(** X4. The context handed to the personas is the history itself, joined
    by newlines, while it has at most ten lines; beyond that only the last
    ten lines count: what lies before them changes neither the context nor
    any call of a later round. *)
Theorem context_is_last_ten_lines (older recent history : list string) :
  (length history <= 10 -> context_of history = Str.join Str.nl history) /\
  (length recent = 10 ->
     context_of (older ++ recent) = Str.join Str.nl recent /\
     round_calls false (older ++ recent) = round_calls false recent).
Proof.
  split.
  - intros Hshort. unfold context_of, Str.last_n.
    by rewrite (proj2 (Nat.ltb_ge _ _)) by lia.
  - intros Hlen.
    pose proof (last_n_recent [] recent Hlen) as Hexact. simpl in Hexact.
    assert (Hctx : context_of (older ++ recent) = context_of recent).
    { unfold context_of. by rewrite last_n_recent, Hexact. }
    split.
    + rewrite Hctx. unfold context_of. by rewrite Hexact.
    + unfold round_calls, round_prompt. by rewrite Hctx.
Qed.

(** Twelve lines: the first two are out of sight. *)
Lemma context_is_last_ten_lines_witness :
  context_of (["You: a"; "Elon: b"]
              ++ ["1"; "2"; "3"; "4"; "5"; "6"; "7"; "8"; "9"; "10"])
  = Str.join Str.nl ["1"; "2"; "3"; "4"; "5"; "6"; "7"; "8"; "9"; "10"].
Proof.
  exact (proj1 (proj2 (context_is_last_ten_lines
                         ["You: a"; "Elon: b"]
                         ["1"; "2"; "3"; "4"; "5"; "6"; "7"; "8"; "9"; "10"]
                         []) eq_refl)).
Defined.

Lemma kept_agents (o : string -> outcome) (names : list string) :
  agent <$> ((fun name => ChatMessage name (text_of (o name)))
               <$> List.filter (fun name => contributes (o name)) names)
  = List.filter (fun name => contributes (o name)) names.
Proof.
  rewrite <- list_fmap_compose.
  induction (List.filter (fun name => contributes (o name)) names)
    as [|x l IH]; [done|]. simpl. by f_equal.
Qed.

Lemma filter_length_le {A} (f : A -> bool) (l : list A) :
  length (List.filter f l) <= length l.
Proof.
  induction l as [|x l IH]; simpl; [lia|]. destruct (f x); simpl; lia.
Qed.

Lemma filter_NoDup {A} (f : A -> bool) (l : list A) :
  NoDup l -> NoDup (List.filter f l).
Proof.
  induction 1 as [|x l Hx Hnd IH]; simpl; [constructor|].
  destruct (f x); [|done]. constructor; [|done].
  intros Hin. apply Hx. apply list_elem_of_In in Hin.
  apply filter_In in Hin as [Hin _]. by apply list_elem_of_In.
Qed.

(** X5. A round only appends: the history it leaves starts with the history
    it was given and is longer by one line per new message. There are at
    most four new messages, from distinct personas among the four aliases,
    and the round makes exactly four calls. *)
Theorem round_appends_at_most_four
    (chat_response : list call -> persona -> string -> string -> string -> outcome)
    (scheduler : list call -> list string) (conversation_history : list string)
    (is_first_round : bool) (log : list call) :
  let r := run_one_round chat_response scheduler conversation_history
                         is_first_round log in
  conversation_history `prefix_of` r.1.2 /\
  length r.1.2 = length conversation_history + length r.1.1 /\
  length r.1.1 <= 4 /\
  NoDup (agent <$> r.1.1) /\
  (forall m, m ∈ r.1.1 -> agent m ∈ alias_names) /\
  length r.2 = length log + 4.
Proof.
  intros r. subst r. rewrite run_one_round_eq. cbn [fst snd].
  set (seen := collected chat_response scheduler conversation_history
                         is_first_round log).
  split; [by apply prefix_app_r|].
  split; [by rewrite length_app, length_fmap|].
  split; [|split; [|split]].
  - rewrite length_fmap.
    by apply (filter_length_le (fun name => contributes (seen name))
                               alias_names).
  - rewrite kept_agents. apply filter_NoDup.
    apply (bool_decide_unpack _). by vm_compute.
  - intros m Hm.
    by apply (kept_message m alias_names seen) in Hm as (Halias & _).
  - rewrite length_app. reflexivity.
Qed.

(** ** Further facts: the group chat *)

(** What the rounds of a group chat keep: the history is the opening line
    and the lines of all messages so far, and every message is a reply of
    one of the four personas that is no SKIP. *)
Lemma chat_rounds_keep
    (chat_response : list call -> persona -> string -> string -> string -> outcome)
    (scheduler : list call -> list string) (opening : list string) (n : nat)
    (st : list (list chat_message) * list string * list call) :
  st.1.2 = opening ++ (line_of <$> concat st.1.1) ->
  Forall (fun m => agent m ∈ alias_names /\ is_skip (message m) = false)
         (concat st.1.1) ->
  let r := Nat.iter n (next_round chat_response scheduler) st in
  r.1.2 = opening ++ (line_of <$> concat r.1.1) /\
  Forall (fun m => agent m ∈ alias_names /\ is_skip (message m) = false)
         (concat r.1.1).
Proof.
  intros Hhist Hall. induction n as [|n IH]; intros r; [done|].
  subst r. rewrite Nat.iter_succ. destruct IH as [IHh IHall].
  destruct (Nat.iter n (next_round chat_response scheduler) st)
    as [[rounds h] l].
  unfold next_round. rewrite run_one_round_eq. cbn [fst snd] in *.
  rewrite concat_app, fmap_app. simpl. rewrite app_nil_r. split.
  - by rewrite IHh, app_assoc.
  - apply Forall_app. split; [done|]. apply Forall_forall. intros m Hm.
    by apply (kept_message m alias_names
                (collected chat_response scheduler h false l))
      in Hm as (Halias & _ & Hns).
Qed.

(** X7. A group chat asked for one round, for none, or for a negative
    number of rounds runs the first round all the same, and only that one:
    four calls, each with the user's message as its prompt. *)
Theorem group_chat_runs_at_least_once
    (chat_response : list call -> persona -> string -> string -> string -> outcome)
    (scheduler : list call -> list string) (topic : string)
    (chat_rounds : Z) (log : list call) :
  (chat_rounds <= 1)%Z ->
  let r := chat_rounds_run chat_response scheduler topic chat_rounds log in
  let out := run_group_chat chat_response scheduler topic chat_rounds log in
  length r.1.1 = 1 /\
  r = chat_rounds_run chat_response scheduler topic 1 log /\
  out.2 = log ++ round_calls true ["You: " +:+ topic] /\
  Forall (fun c => user_message c = "You: " +:+ topic /\
                   conversation_context c = "You: " +:+ topic)
         (round_calls true ["You: " +:+ topic]).
Proof.
  intros Hn r out.
  assert (Hiter : Z.to_nat (chat_rounds - 1) = 0) by lia.
  assert (Hr : r = chat_rounds_run chat_response scheduler topic 1 log).
  { subst r. unfold chat_rounds_run. by rewrite Hiter. }
  subst out. unfold run_group_chat. fold r. rewrite Hr.
  unfold chat_rounds_run. rewrite run_one_round_eq. simpl.
  repeat split; try done. repeat constructor.
Qed.

(** No round is asked for. *)
Lemma group_chat_runs_at_least_once_witness :
  length (chat_rounds_run greeting (fun _ => alias_names) "hello" 0 []).1.1 = 1.
Proof.
  exact (proj1 (group_chat_runs_at_least_once greeting (fun _ => alias_names)
                  "hello" 0 [] ltac:(lia))).
Defined.

(** X8. The state that a group chat returns is consistent: its history is
    the user's line followed by the lines of its messages, in order; every
    message is a reply, no SKIP, of one of the four personas; the problem is
    the user's message, and the state is otherwise as freshly broadcast
    (step 1, no responses, no synthesis, no decision). *)
Theorem group_chat_state_is_consistent
    (chat_response : list call -> persona -> string -> string -> string -> outcome)
    (scheduler : list call -> list string) (topic : string)
    (chat_rounds : Z) (log : list call) :
  let out := run_group_chat chat_response scheduler topic chat_rounds log in
  exists chat,
    group_chat out.1 = Some chat /\
    conversation_history out.1
      = Some (("You: " +:+ topic) :: (line_of <$> chat)) /\
    Forall (fun m => agent m ∈ alias_names /\ is_skip (message m) = false)
           chat /\
    problem_statement out.1 = topic /\
    current_step out.1 = 1%Q /\
    agent_responses out.1 = ∅ /\
    synthesis_output out.1 = None /\
    final_decision out.1 = None.
Proof.
  intros out. subst out. unfold run_group_chat, chat_rounds_run.
  rewrite run_one_round_eq.
  match goal with
  | |- context [Nat.iter ?n _ ?st] =>
      pose proof (chat_rounds_keep chat_response scheduler
                    ["You: " +:+ topic] n st) as Hkeep
  end.
  cbn [fst snd concat] in Hkeep. rewrite app_nil_r in Hkeep.
  destruct Hkeep as [Hhist Hall]; [done| |].
  { apply Forall_forall. intros m Hm.
    by apply (kept_message m alias_names
                (collected chat_response scheduler ["You: " +:+ topic]
                           true log))
      in Hm as (Halias & _ & Hns). }
  match goal with
  | |- context [Nat.iter ?n ?f ?st] => destruct (Nat.iter n f st) as [[rounds h] l]
  end.
  cbn [fst snd] in *. exists (concat rounds). subst h. by repeat split.
Qed.

(** ** Further facts: the debate of step 2.5 *)

Section DebateRecord.

Variable chat_response :
  list call -> persona -> string -> string -> string -> outcome.
Variable log : list call.

Lemma debate_recorded_start (initial : list string) :
  debate_recorded chat_response log
    {| history := initial; said := []; calls := log |}.
Proof. exists []. simpl. rewrite app_nil_r. repeat split; done. Qed.

Lemma debate_turn_recorded (t : talk) (item : string * persona) :
  OD.get agents item.1 = Some item.2 ->
  debate_recorded chat_response log t ->
  debate_recorded chat_response log (debate_turn chat_response t item).
Proof.
  intros Hitem (asked & Hcalls & Hlen & Hasked).
  unfold debate_turn. eexists (asked ++ [_]). simpl.
  split; [by rewrite Hcalls, app_assoc|].
  split; [by rewrite !length_app, Hlen|].
  intros k c Hk. apply lookup_snoc_Some in Hk as [[Hlt Hk]|[-> <-]].
  - destruct (Hasked k c Hk) as [Hsaid Hagent].
    rewrite take_app_le by lia. rewrite lookup_app_l by lia. done.
  - simpl. rewrite take_app_length, <- Hcalls.
    rewrite Hlen, lookup_app_r by lia. rewrite Nat.sub_diag. done.
Qed.

Lemma debate_rounds_recorded (initial : list string) (n : nat) :
  debate_recorded chat_response log
    (Nat.iter n (debate_round chat_response)
              {| history := initial; said := []; calls := log |}).
Proof.
  induction n as [|n IH]; [apply debate_recorded_start|].
  rewrite Nat.iter_succ. unfold debate_round, agents. simpl.
  by do 4 (apply debate_turn_recorded; [reflexivity|]).
Qed.

End DebateRecord.

(** X9. Step 2.5 records every reply: each call, over all the rounds,
    brings exactly one message under the alias of the persona asked; its text
    is the reply as returned (a reply of SKIP included) or, when the call
    raised, "Error: " followed by the message of the exception. *)
Theorem debate_records_every_reply
    (chat_response : list call -> persona -> string -> string -> string -> outcome)
    (state : CouncilState) (rounds : Z) (log : list call) :
  let t := debate chat_response rounds (agent_responses state) log in
  exists asked,
    calls t = log ++ asked /\
    length asked = 4 * Z.to_nat rounds /\
    length (said t) = 4 * Z.to_nat rounds /\
    forall k c, asked !! k = Some c ->
      OD.get agents (agent_name c) = Some (callee c) /\
      exists text,
        said t !! k = Some (ChatMessage (agent_name c) text) /\
        text = match chat_response (log ++ take k asked) (callee c)
                       (user_message c) (conversation_context c)
                       (agent_name c) with
               | Returned response => response
               | Raised err => "Error: " +:+ err
               end.
Proof.
  intros t.
  destruct (debate_rounds_recorded chat_response log
              (initial_lines (agent_responses state)) (Z.to_nat rounds))
    as (asked & Hcalls & Hlen & Hasked).
  destruct (debate_rounds_invariant chat_response
              (initial_lines (agent_responses state)) log (Z.to_nat rounds))
    as [_ Hsaid].
  exists asked. split; [exact Hcalls|]. split; [by rewrite Hlen|].
  split; [exact Hsaid|].
  intros k c Hk. destruct (Hasked k c Hk) as [Hmsg Hagent].
  split; [exact Hagent|]. eexists. split; [exact Hmsg|].
  by destruct (chat_response _ _ _ _ _).
Qed.

(** Elon's call raises and Sam answers SKIP: both are recorded. *)
Lemma debate_records_every_reply_witness :
  said (debate moody 1 ∅ [])
  = [ChatMessage "Elon" "Error: boom"; ChatMessage "Sam" " skip for now";
     ChatMessage "Sheryl" "noted by Sheryl"; ChatMessage "Ray" "noted by Ray"].
Proof.
  destruct (debate_records_every_reply moody (step_1_broadcast "x") 1 [])
    as (asked & _ & _ & _ & _).
  reflexivity.
Defined.

(** X10. Step 2.5 starts from the responses stored under the four roles:
    one line "alias: response" per role that has one, in the order Elon, Sam,
    Sheryl, Ray; entries under an alias alone or under any other key are not
    used. After step 2 these are the four lines of the step-2 texts, whatever
    the order of completion, and the first persona asked is handed exactly
    those four lines as its context. *)
Theorem debate_starts_from_role_responses
    (analyze : persona -> string -> outcome)
    (chat_response : list call -> persona -> string -> string -> string -> outcome)
    (as_completed : list future -> list future) (state : CouncilState)
    (responses : gmap string string) (rounds : Z) (log : list call) :
  (forall fs, as_completed fs ≡ₚ fs) -> (0 < rounds)%Z ->
  let after := step_2_parallel_responses analyze as_completed state in
  let lines :=
    List.map (fun item => line (display_name item.1)
                               (text_of (analyze item.2
                                           (problem_statement state))))
             role_agents in
  initial_lines responses
    = omap (fun item => line item.2 <$> responses !! item.1)
           AGENT_NAME_MAPPING /\
  initial_lines (agent_responses after) = lines /\
  exists c,
    calls (debate chat_response rounds (agent_responses after) log)
      !! length log = Some c /\
    conversation_context c = Str.join Str.nl lines.
Proof.
  intros Hperm Hrounds after lines.
  assert (Hany : forall m : gmap string string,
    initial_lines m
    = omap (fun item => line item.2 <$> m !! item.1) AGENT_NAME_MAPPING).
  { intros m. unfold initial_lines, initial_responses. simpl.
    destruct (m !! "Visionary"), (m !! "Strategist"), (m !! "Operator"),
      (m !! "Risk Analyst"); reflexivity. }
  assert (Hlines : initial_lines (agent_responses after) = lines).
  { rewrite Hany. subst after lines.
    destruct (broadcast_values analyze as_completed state "Visionary"
                visionary Hperm eq_refl) as [H1 _].
    destruct (broadcast_values analyze as_completed state "Strategist"
                strategist Hperm eq_refl) as [H2 _].
    destruct (broadcast_values analyze as_completed state "Operator"
                operator Hperm eq_refl) as [H3 _].
    destruct (broadcast_values analyze as_completed state "Risk Analyst"
                risk_analyst Hperm eq_refl) as [H4 _].
    remember (agent_responses
                (step_2_parallel_responses analyze as_completed state)) as m.
    unfold AGENT_NAME_MAPPING. simpl. by rewrite H1, H2, H3, H4. }
  split; [apply Hany|]. split; [exact Hlines|].
  destruct (debate_rounds_invariant chat_response
              (initial_lines (agent_responses after)) log (Z.to_nat rounds))
    as [[_ (asked & Hcalls & Hlen & Hasked)] Hsaid].
  fold (debate chat_response rounds (agent_responses after) log)
    in Hcalls, Hlen, Hasked, Hsaid.
  destruct (lookup_lt_is_Some_2 asked 0) as [c Hc]; [lia|].
  exists c. split.
  - rewrite Hcalls, lookup_app_r by lia. by rewrite Nat.sub_diag.
  - destruct (Hasked 0 c Hc) as (-> & _ & _).
    unfold seen_at_turn. rewrite take_0, app_nil_r, Hlines. reflexivity.
Qed.

(** After a step 2 in which the operator's call raised. *)
Lemma debate_starts_from_role_responses_witness :
  initial_lines
    (agent_responses
       (step_2_parallel_responses sample_analyze reverse
                                  (step_1_broadcast "launch?")))
  = ["Elon: a view on launch?"; "Sam: a view on launch?";
     "Sheryl: Error: connection refused"; "Ray: a view on launch?"].
Proof.
  exact (proj1 (proj2 (debate_starts_from_role_responses sample_analyze
                         greeting reverse (step_1_broadcast "launch?") ∅ 1 []
                         reverse_Permutation ltac:(lia)))).
Defined.

(** ** Further facts: the tagged debate *)

Lemma agents_known (name : string) :
  is_Some (OD.get agents name) <-> name ∈ alias_names.
Proof.
  split.
  - intros [p Hp]. by apply (get_in_keys agents name p).
  - unfold alias_names. simpl. intros Hin. set_unfold in Hin.
    destruct Hin as [->|[->|[->|[->|[]]]]]; eexists; reflexivity.
Qed.

Lemma participating_fold (tagged : list string) (d : odict persona) :
  let r := foldl (fun d name =>
                    match OD.get agents name with
                    | Some a => OD.set d name a
                    | None => d
                    end) d tagged in
  (NoDup (OD.keys d) -> NoDup (OD.keys r)) /\
  (forall name, name ∈ OD.keys r <->
     name ∈ OD.keys d \/ (name ∈ tagged /\ name ∈ alias_names)) /\
  ((forall name p, OD.get d name = Some p -> OD.get agents name = Some p) ->
   forall name p, OD.get r name = Some p -> OD.get agents name = Some p) /\
  (NoDup tagged -> (forall name, name ∈ tagged -> name ∉ OD.keys d) ->
   OD.keys r
   = OD.keys d
     ++ List.filter (fun name => bool_decide (name ∈ alias_names)) tagged).
Proof.
  revert d. induction tagged as [|x tagged IH]; intros d r.
  - subst r. simpl. rewrite app_nil_r. repeat split; try done.
    + by left.
    + intros [H|[H _]]; [done | by apply elem_of_nil in H].
  - subst r. cbn [foldl].
    destruct (OD.get agents x) as [a|] eqn:Hx.
    + assert (Hknown : x ∈ alias_names) by (apply agents_known; eauto).
      destruct (IH (OD.set d x a)) as (Hnd & Hmem & Hget & Hord).
      assert (Hkeys : forall name, name ∈ OD.keys (OD.set d x a) <->
                                   name ∈ OD.keys d \/ name = x).
      { intros name. rewrite keys_set_list. case_bool_decide as Hin.
        - split; [by left | intros [H| ->]; done].
        - rewrite elem_of_app, list_elem_of_singleton. done. }
      split; [|split; [|split]].
      * intros Hd. apply Hnd. rewrite keys_set_list. case_bool_decide as Hin;
          [done|]. apply NoDup_app. split; [done|].
        split; [|apply NoDup_singleton].
        intros y Hy Hyx. apply list_elem_of_singleton in Hyx. by subst.
      * intros name. rewrite Hmem, Hkeys, elem_of_cons. split.
        -- intros [[H| ->]|[H1 H2]]; [by left | right | right]; split;
             first [done | by left | by right].
        -- intros [H|[[->|H1] H2]]; [by left; left | by left; right | right];
             done.
      * intros Hd. apply Hget. intros name p.
        destruct (decide (x = name)) as [->|Hne].
        -- rewrite get_set_eq. congruence.
        -- rewrite get_set_ne by done. apply Hd.
      * intros Hndt Hfresh. apply NoDup_cons in Hndt as [Hxt Hndt].
        cbn [List.filter]. rewrite bool_decide_eq_true_2 by done.
        rewrite Hord; [|done|].
        -- rewrite keys_set_list, bool_decide_eq_false_2.
           ++ by rewrite <- app_assoc.
           ++ apply Hfresh. left.
        -- intros name Hname Hin. apply Hkeys in Hin as [Hin| ->]; [|done].
           apply (Hfresh name); [by right | done].
    + assert (Hunknown : x ∉ alias_names).
      { intros Hin. apply agents_known in Hin as [p Hp]. congruence. }
      destruct (IH d) as (Hnd & Hmem & Hget & Hord).
      split; [exact Hnd|]. split; [|split; [exact Hget|]].
      * intros name. rewrite Hmem, elem_of_cons. split.
        -- intros [H|[H1 H2]]; [by left | right]. split; [by right | done].
        -- intros [H|[[->|H1] H2]]; [by left | done | right; done].
      * intros Hndt Hfresh. apply NoDup_cons in Hndt as [Hxt Hndt].
        cbn [List.filter]. rewrite bool_decide_eq_false_2 by done.
        apply Hord; [done|].
        intros name Hname. apply Hfresh. by right.
Qed.

(** X1. The participants of a tagged debate are the tagged names that are
    aliases of the four personas, each once however often it is tagged; each
    is bound to its own agent; there are at most four; and when no name is
    tagged twice they keep the order of the tags. *)
Theorem participants_are_known_and_distinct (tagged_agents : list string) :
  let participants := participating tagged_agents in
  NoDup (OD.keys participants) /\
  (forall name, name ∈ OD.keys participants <->
     name ∈ tagged_agents /\ name ∈ alias_names) /\
  (forall name p, OD.get participants name = Some p ->
     OD.get agents name = Some p) /\
  length participants <= 4 /\
  (NoDup tagged_agents ->
   OD.keys participants
   = List.filter (fun name => bool_decide (name ∈ alias_names)) tagged_agents).
Proof.
  intros participants.
  destruct (participating_fold tagged_agents []) as (Hnd & Hmem & Hget & Hord).
  fold (participating tagged_agents) in Hnd, Hmem, Hget, Hord.
  fold participants in Hnd, Hmem, Hget, Hord.
  assert (Hnodup : NoDup (OD.keys participants)) by (apply Hnd; constructor).
  split; [exact Hnodup|]. split; [|split; [|split]].
  - intros name. rewrite Hmem. split; [|by right].
    intros [H|H]; [by apply elem_of_nil in H | done].
  - apply Hget. intros name p H. discriminate H.
  - replace (length participants) with (length (OD.keys participants))
      by apply length_fmap.
    change 4 with (length alias_names).
    apply submseteq_length, NoDup_submseteq; [done|].
    intros name Hname. by apply Hmem in Hname as [Hname|[_ Hname]];
      [apply elem_of_nil in Hname|].
  - intros Hndt. apply Hord; [done|]. intros name _ Hin.
    by apply elem_of_nil in Hin.
Qed.

(** Somebody the council does not know is tagged between Sam and Elon. *)
Lemma participants_are_known_and_distinct_witness :
  OD.keys (participating ["Sam"; "Bob"; "Elon"])
  = ["Sam"; "Elon"].
Proof.
  refine (proj2 (proj2 (proj2 (proj2
            (participants_are_known_and_distinct ["Sam"; "Bob"; "Elon"])))) _).
  apply (bool_decide_unpack _). by vm_compute.
Defined.

(** X2. A tagged debate in which no tagged name is an alias of a persona (no
    tag at all included) does nothing: it returns no message, leaves the
    history as it is and calls nobody. *)
Theorem debate_without_participants_is_void
    (chat_response : list call -> persona -> string -> string -> string -> outcome)
    (tagged_agents : list string) (topic : string)
    (conversation_history : list string) (log : list call) :
  (forall name, name ∈ tagged_agents -> name ∉ alias_names) ->
  participating tagged_agents = [] /\
  run_tagged_debate chat_response tagged_agents topic conversation_history log
  = ([], conversation_history, log).
Proof.
  intros Hnone.
  assert (Hempty : participating tagged_agents = []).
  { destruct (participating_fold tagged_agents []) as (_ & Hmem & _).
    fold (participating tagged_agents) in Hmem.
    destruct (participating tagged_agents) as [|[name p] rest]; [done|].
    exfalso. assert (Hin : name ∈ OD.keys ((name, p) :: rest)) by left.
    apply Hmem in Hin as [Hin|[Hin Hknown]];
      [by apply elem_of_nil in Hin | by apply (Hnone name)]. }
  split; [exact Hempty|]. unfold run_tagged_debate. by rewrite Hempty.
Qed.

(** Tags in the wrong case. *)
Lemma debate_without_participants_is_void_witness :
  run_tagged_debate greeting ["elon"; "RAY"] "ship it?" ["You: hi"] []
  = ([], ["You: hi"], []).
Proof.
  refine (proj2 (debate_without_participants_is_void greeting ["elon"; "RAY"]
                   "ship it?" ["You: hi"] [] _)).
  intros name Hname Hknown.
  apply elem_of_cons in Hname as [->|Hname];
    [|apply elem_of_cons in Hname as [->|Hname]];
    [| |by apply elem_of_nil in Hname];
    revert Hknown; apply (bool_decide_unpack _); by vm_compute.
Defined.

Section Exchange.

Variable chat_response :
  list call -> persona -> string -> string -> string -> outcome.
Variable participants : odict persona.
Variable topic : string.

Lemma exchange_turns_spec (exchange : nat) (ctx : string)
    (items : odict persona) (t : talk) :
  let r := foldl (exchange_turn chat_response exchange topic ctx) t items in
  exists new,
    said r = said t ++ new /\
    history r = history t ++ (line_of <$> new) /\
    (agent <$> new) `sublist_of` OD.keys items /\
    calls r
    = calls t
      ++ ((fun item => Call item.2 (debate_prompt exchange item.1 topic ctx)
                            ctx item.1) <$> items).
Proof.
  revert t. induction items as [|item items IH]; intros t r.
  - exists []. subst r. simpl. by rewrite !app_nil_r.
  - subst r. cbn [foldl].
    set (t1 := exchange_turn chat_response exchange topic ctx t item).
    destruct (IH t1) as (new & Hsaid & Hhist & Hsub & Hcalls).
    assert (Hstep : exists first,
      said t1 = said t ++ first /\
      history t1 = history t ++ (line_of <$> first) /\
      (agent <$> first) `sublist_of` [item.1] /\
      calls t1
      = calls t ++ [Call item.2 (debate_prompt exchange item.1 topic ctx)
                         ctx item.1]).
    { subst t1. unfold exchange_turn.
      destruct (chat_response (calls t) item.2
                  (debate_prompt exchange item.1 topic ctx) ctx item.1)
        as [response|err].
      - exists [ChatMessage item.1 response]. by repeat split.
      - exists []. simpl. rewrite !app_nil_r. repeat split; try done.
        apply sublist_nil_l. }
    destruct Hstep as (first & Hs1 & Hh1 & Hsub1 & Hc1).
    exists (first ++ new). rewrite Hsaid, Hhist, Hcalls, Hs1, Hh1, Hc1.
    rewrite !fmap_app, <- !app_assoc.
    split; [done|]. split; [done|]. split; [|done].
    change (OD.keys (item :: items)) with ([item.1] ++ OD.keys items).
    by apply sublist_app.
Qed.

Lemma run_exchange_spec (exchange : nat) (debate_history : list string)
    (log : list call) :
  let t := run_exchange chat_response participants topic exchange
                        debate_history log in
  calls t = log ++ exchange_calls participants topic exchange debate_history /\
  history t = debate_history ++ (line_of <$> said t) /\
  (agent <$> said t) `sublist_of` OD.keys participants.
Proof.
  intros t. subst t. unfold run_exchange.
  destruct (exchange_turns_spec exchange (context_of debate_history)
              participants
              {| history := debate_history; said := []; calls := log |})
    as (new & Hsaid & Hhist & Hsub & Hcalls).
  simpl in Hsaid, Hhist, Hcalls. rewrite Hsaid, Hhist, Hcalls. done.
Qed.

Lemma debate_loop_calls_grow (exchanges : list nat)
    (debate_history : list string) (log : list call) :
  exists more,
    (debate_loop chat_response participants topic exchanges debate_history
                 log).2 = log ++ more.
Proof.
  revert debate_history log.
  induction exchanges as [|exchange later IH]; intros debate_history log.
  - exists []. simpl. by rewrite app_nil_r.
  - cbn [debate_loop].
    set (t := run_exchange chat_response participants topic exchange
                           debate_history log).
    destruct (run_exchange_spec exchange debate_history log) as (Hcalls & _).
    fold t in Hcalls.
    destruct (bool_decide (said t <> []) && closing (said t)).
    + eexists. exact Hcalls.
    + destruct (IH (history t) (calls t)) as [more Hmore].
      destruct (debate_loop chat_response participants topic later
                            (history t) (calls t)) as [[e h] l].
      simpl in *. eexists. by rewrite Hmore, Hcalls, <- app_assoc.
Qed.

Lemma debate_loop_first (exchange : nat) (later : list nat)
    (debate_history : list string) (log : list call) :
  exists more,
    (debate_loop chat_response participants topic (exchange :: later)
                 debate_history log).2
    = log ++ exchange_calls participants topic exchange debate_history
          ++ more.
Proof.
  cbn [debate_loop].
  set (t := run_exchange chat_response participants topic exchange
                         debate_history log).
  destruct (run_exchange_spec exchange debate_history log) as (Hcalls & _).
  fold t in Hcalls.
  destruct (bool_decide (said t <> []) && closing (said t)).
  - exists []. by rewrite app_nil_r.
  - destruct (debate_loop_calls_grow later (history t) (calls t))
      as [more Hmore].
    destruct (debate_loop chat_response participants topic later
                          (history t) (calls t)) as [[e h] l].
    simpl in *. exists more. by rewrite Hmore, Hcalls, <- app_assoc.
Qed.


Lemma quiet_turns (exchange : nat) (ctx : string) (items : odict persona)
    (t : talk) :
  (forall l p u c n, exists err, chat_response l p u c n = Raised err) ->
  said (foldl (exchange_turn chat_response exchange topic ctx) t items)
  = said t /\
  history (foldl (exchange_turn chat_response exchange topic ctx) t items)
  = history t.
Proof.
  intros Hraise. revert t. induction items as [|item items IH]; intros t;
    [done|].
  cbn [foldl]. destruct (IH (exchange_turn chat_response exchange topic ctx
                                           t item)) as [-> ->].
  unfold exchange_turn.
  destruct (Hraise (calls t) item.2
              (debate_prompt exchange item.1 topic ctx) ctx item.1)
    as [err ->].
  done.
Qed.

Lemma debate_loop_all_raise (exchanges : list nat)
    (debate_history : list string) (log : list call) :
  (forall l p u c n, exists err, chat_response l p u c n = Raised err) ->
  let r := debate_loop chat_response participants topic exchanges
                       debate_history log in
  concat r.1.1 = [] /\ length r.1.1 = length exchanges.
Proof.
  intros Hraise. revert debate_history log.
  induction exchanges as [|exchange later IH]; intros debate_history log r;
    [done|].
  subst r. cbn [debate_loop]. unfold run_exchange.
  destruct (quiet_turns exchange (context_of debate_history) participants
              {| history := debate_history; said := []; calls := log |}
              Hraise) as [Hsaid Hhist].
  rewrite Hsaid. cbn [said].
  rewrite bool_decide_eq_false_2 by (intros H; by apply H).
  cbn [andb]. specialize (IH (history
    (foldl (exchange_turn chat_response exchange topic
                          (context_of debate_history))
           {| history := debate_history; said := []; calls := log |}
           participants))
    (calls
    (foldl (exchange_turn chat_response exchange topic
                          (context_of debate_history))
           {| history := debate_history; said := []; calls := log |}
           participants))).
  destruct (debate_loop _ _ _ later _ _) as [[e h] l].
  simpl in *. destruct IH as [-> ->]. done.
Qed.

End Exchange.


(** X18. Within one exchange of a tagged debate every participant is handed
    the same context, the window over the debate history as it was when the
    exchange began, so no participant sees a reply of the same exchange; the
    replies join the debate history in the order of the participants. In the
    first exchange that history is the caller's history followed by the
    user's line. *)
Theorem exchange_shares_one_context
    (chat_response : list call -> persona -> string -> string -> string -> outcome)
    (tagged_agents : list string) (topic : string)
    (conversation_history debate_history : list string)
    (exchange : nat) (log : list call) :
  participating tagged_agents <> [] ->
  let participants := participating tagged_agents in
  let t := run_exchange chat_response participants topic exchange
                        debate_history log in
  let asked := exchange_calls participants topic exchange debate_history in
  calls t = log ++ asked /\
  shares_snapshot asked /\
  Forall (fun c => conversation_context c = context_of debate_history) asked /\
  agent_name <$> asked = OD.keys participants /\
  history t = debate_history ++ (line_of <$> said t) /\
  (agent <$> said t) `sublist_of` OD.keys participants /\
  exists more,
    (run_tagged_debate chat_response tagged_agents topic conversation_history
                       log).2
    = log
      ++ exchange_calls participants topic 0
           (conversation_history ++ ["You: " +:+ topic])
      ++ more.
Proof.
  intros Hsome participants t asked.
  destruct (run_exchange_spec chat_response participants topic exchange
              debate_history log) as (Hcalls & Hhist & Hsub).
  assert (Hall : Forall (fun c => conversation_context c
                                  = context_of debate_history) asked).
  { subst asked. unfold exchange_calls. apply Forall_fmap.
    by apply Forall_forall. }
  split; [exact Hcalls|]. split; [|split; [exact Hall|split; [|split; [|split]]]].
  - intros c1 c2 H1 H2. rewrite Forall_forall in Hall.
    by rewrite (Hall c1 H1), (Hall c2 H2).
  - subst asked. unfold exchange_calls, OD.keys.
    rewrite <- list_fmap_compose. by apply list_fmap_ext.
  - exact Hhist.
  - exact Hsub.
  - destruct (debate_loop_first chat_response participants topic 0 [1; 2]
                (conversation_history ++ ["You: " +:+ topic]) log)
      as [more Hmore].
    exists more. unfold run_tagged_debate. fold participants.
    destruct participants as [|p ps] eqn:Hp; [done|].
    unfold debate_exchanges. fold participants. rewrite Hp.
    change (seq 0 max_exchanges) with [0; 1; 2].
    destruct (debate_loop chat_response (p :: ps) topic [0; 1; 2] _ log)
      as [[e h] l].
    exact Hmore.
Qed.

(** Sam and Ray are tagged after a first round. *)
Lemma exchange_shares_one_context_witness :
  exists more,
    (run_tagged_debate greeting ["Sam"; "Ray"] "ship it?" ["You: hi"] []).2
    = exchange_calls (participating ["Sam"; "Ray"]) "ship it?" 0
                     ["You: hi"; "You: ship it?"]
      ++ more.
Proof.
  destruct (exchange_shares_one_context greeting ["Sam"; "Ray"] "ship it?"
              ["You: hi"] [] 0 [] ltac:(discriminate))
    as (_ & _ & _ & _ & _ & _ & more & Hmore).
  exists more. exact Hmore.
Defined.


(** X20. When every call of a tagged debate raises, the debate still runs
    its three exchanges, asking each participant three times, and then
    returns no message and leaves the caller's history as it was. *)
Theorem failing_debate_returns_nothing
    (chat_response : list call -> persona -> string -> string -> string -> outcome)
    (tagged_agents : list string) (topic : string)
    (conversation_history : list string) (log : list call) :
  (forall l p u c n, exists err, chat_response l p u c n = Raised err) ->
  let out := run_tagged_debate chat_response tagged_agents topic
                               conversation_history log in
  out.1 = ([], conversation_history) /\
  length out.2 = length log + 3 * length (participating tagged_agents).
Proof.
  intros Hraise out. subst out. unfold run_tagged_debate.
  destruct (participating tagged_agents) as [|p ps] eqn:Hp.
  { simpl. split; [done | lia]. }
  unfold debate_exchanges. rewrite Hp.
  pose proof (debate_loop_all_raise chat_response (p :: ps) topic
                (seq 0 max_exchanges)
                (conversation_history ++ ["You: " +:+ topic]) log Hraise)
    as [Hnone Hthree].
  pose proof (debate_loop_bounded chat_response (p :: ps) topic
                (seq 0 max_exchanges)
                (conversation_history ++ ["You: " +:+ topic]) log)
    as (_ & _ & _ & _ & Hlog).
  destruct (debate_loop chat_response (p :: ps) topic _ _ log)
    as [[exchanges h] l].
  cbn [fst snd] in *. rewrite Hnone. simpl. rewrite app_nil_r.
  split; [done|]. rewrite Hlog, Hthree. reflexivity.
Qed.

(** Nobody can be reached. *)
Lemma failing_debate_returns_nothing_witness :
  run_tagged_debate unreachable ["Elon"; "Ray"] "ship it?" ["You: hi"] []
  = ([], ["You: hi"],
     (run_tagged_debate unreachable ["Elon"; "Ray"] "ship it?" ["You: hi"]
                        []).2) /\
  length (run_tagged_debate unreachable ["Elon"; "Ray"] "ship it?"
                            ["You: hi"] []).2 = 6.
Proof.
  destruct (failing_debate_returns_nothing unreachable ["Elon"; "Ray"]
              "ship it?" ["You: hi"] [])
    as [Hnone Hcalls].
  - intros l p u c n. by exists "connection refused".
  - split; [|exact Hcalls].
    destruct (run_tagged_debate unreachable ["Elon"; "Ray"] "ship it?"
                                ["You: hi"] []) as [[ms h] l].
    simpl in Hnone. injection Hnone as -> ->. reflexivity.
Defined.

(** ** Further facts: the synthesis client and the agents' prompt test *)

(** X21. Whatever the model returns, [synthesize] returns a dictionary with
    exactly the five keys. A structured response is dumped field by field
    and takes precedence over the messages; without one the four lists are
    empty and the summary is the content of the last message, or "Synthesis
    unavailable" when there is no message. Hence the decisions built on it
    never fall back on their own defaults: they recommend the list stored
    under "final_options". *)
Theorem synthesis_always_has_five_keys (invoke : string -> invoke_result)
    (problem : string) (responses : odict string)
    (self : CouncilOrchestrator) (agent_responses : gmap string string) :
  let result := invoke (synthesis_prompt problem responses) in
  let out := synthesize_with invoke problem responses in
  dom out = list_to_set synthesis_keys /\
  (forall structured, structured_response result = Some structured ->
     out = model_dump structured) /\
  (structured_response result = None ->
     out = unstructured
             match last (messages result) with
             | Some last_message => content_of last_message
             | None => "Synthesis unavailable"
             end /\
     out !! "final_options" = Some (VList [])) /\
  exists options,
    out !! "final_options" = Some (VList options) /\
    recommended_options (_weighted_decision self agent_responses out)
      = VList options /\
    recommended_options (_majority_voting agent_responses out)
      = VList options.
Proof.
  intros result out. subst out. unfold synthesize_with. fold result.
  assert (Hdump : forall o, dom (model_dump o) = list_to_set synthesis_keys).
  { intros o. unfold model_dump, synthesis_keys.
    rewrite !dom_insert_L, dom_singleton_L. simpl. set_solver. }
  assert (Hplain : forall text,
            dom (unstructured text) = list_to_set synthesis_keys).
  { intros text. unfold unstructured, synthesis_keys.
    rewrite !dom_insert_L, dom_singleton_L. simpl. set_solver. }
  destruct (structured_response result) as [structured|].
  - split; [apply Hdump|]. split; [by intros ? [= <-]|]. split; [done|].
    exists (final_options structured). by repeat split.
  - split; [destruct (last (messages result)); apply Hplain|].
    split; [done|]. split.
    + intros _. by destruct (last (messages result)).
    + exists []. by destruct (last (messages result)).
Qed.

(** A model that answers in plain text only, and one whose structured
    response comes with a message that is then ignored. *)
Lemma synthesis_always_has_five_keys_witness :
  synthesize_with plain_invoke "launch?" [("Visionary", "go")]
  = unstructured "no structure today" /\
  synthesize_with sample_invoke "launch?" [("Visionary", "go")]
  = model_dump
      (Structured "two camps" ["speed matters"] [] [] ["launch"; "wait"]).
Proof.
  split.
  - exact (proj1 (proj1 (proj2 (proj2
             (synthesis_always_has_five_keys plain_invoke "launch?"
                [("Visionary", "go")] (init None None) ∅))) eq_refl)).
  - exact (proj1 (proj2
             (synthesis_always_has_five_keys sample_invoke "launch?"
                [("Visionary", "go")] (init None None) ∅)) _ eq_refl).
Defined.

Lemma string_app_assoc (a b c : string) : (a +:+ b) +:+ c = a +:+ (b +:+ c).
Proof.
  induction a as [|x a IH]; [done|]. rewrite !append_cons. by rewrite IH.
Qed.

(** An ASCII head of a text is put in upper case byte by byte. *)
Lemma upper_user_line (typed : string) :
  Str.upper ("You: " +:+ typed) = "YOU: " +:+ Str.upper typed.
Proof. reflexivity. Qed.

(** X22. Every call of a round after the first reaches the agent with a
    prompt that passes its "should I respond?" test, so the model is given
    the prompt that allows SKIP. A first round passes the same test whenever
    the user's message holds the letters skip in any letter case: the
    personas are then asked whether they want to respond at all, instead of
    being told what the user just said. *)
Theorem opt_out_prompt_is_selected (conversation_history : list string)
    (typed before after : string) :
  Forall (fun c => asks_whether_to_respond (user_message c) = true)
         (round_calls false conversation_history) /\
  (Str.upper typed = before +:+ "SKIP" +:+ after ->
   Forall (fun c => asks_whether_to_respond (user_message c) = true)
          (round_calls true (conversation_history ++ ["You: " +:+ typed]))).
Proof.
  split.
  - assert (Hskip : forall ctx, asks_whether_to_respond (skip_prompt ctx) = true).
    { intros ctx. unfold asks_whether_to_respond. apply orb_true_iff. right.
      apply contains_split.
      exists ("The group is discussing:" +:+ Str.nl +:+ Str.nl +:+ ctx
              +:+ Str.nl +:+ Str.nl),
        "? Only respond if you have something relevant to say. If you don't have anything to add, respond with just 'SKIP'.".
      unfold skip_prompt. by rewrite !string_app_assoc. }
    unfold round_calls, round_prompt, agents. simpl. repeat constructor;
      apply Hskip.
  - intros Hupper.
    assert (Hprompt : first_round_prompt
                        (conversation_history ++ ["You: " +:+ typed])
                      = "You: " +:+ typed).
    { unfold first_round_prompt. rewrite List.filter_app. simpl.
      by rewrite last_snoc. }
    assert (Hasks : asks_whether_to_respond ("You: " +:+ typed) = true).
    { unfold asks_whether_to_respond. apply orb_true_iff. left.
      apply contains_split. exists ("YOU: " +:+ before), after.
      rewrite upper_user_line, Hupper. by rewrite !string_app_assoc. }
    unfold round_calls, round_prompt, agents. simpl. rewrite Hprompt.
    repeat constructor; exact Hasks.
Qed.

(** The user asks whether a step can be skipped. *)
Lemma opt_out_prompt_is_selected_witness :
  Forall (fun c => asks_whether_to_respond (user_message c) = true)
         (round_calls true ([] ++ ["You: " +:+ "can we Skip the beta?"])).
Proof.
  exact (proj2 (opt_out_prompt_is_selected [] "can we Skip the beta?"
                  "CAN WE " " THE BETA?") eq_refl).
Defined.

(** ** Further facts: what the handler of a round lets through *)

Lemma guarded_fold_raised (read : string -> raising string)
    (names : list string) (e : exn) :
  foldl (guarded_collect read) (Raise e) names = Raise e.
Proof. induction names as [|name names IH]; [done|]. exact IH. Qed.

Lemma guarded_collect_cases (read : string -> raising string)
    (acc : list chat_message * list string * list (string * string))
    (name : string) :
  (exists acc', guarded_collect read (Ok acc) name = Ok acc' /\
     forall msg, read name <> Raise (Interrupt msg)) \/
  (exists msg, read name = Raise (Interrupt msg) /\
     guarded_collect read (Ok acc) name = Raise (Interrupt msg)).
Proof.
  unfold guarded_collect, try_except.
  destruct (read name) as [response|[msg|msg]].
  - left. by eexists.
  - left. by eexists.
  - right. by exists msg.
Qed.

(** X26. The handler of the collection loop catches an [Exception] and
    nothing else. When the call of a persona raises an exception that is
    none ([KeyboardInterrupt], [SystemExit]), reading its future raises it
    in the collecting thread and it leaves the round: no message is
    returned. When no call does so, the round returns. *)
Theorem interrupt_leaves_the_round (read : string -> raising string)
    (conversation_history : list string) :
  ((exists name msg, name ∈ alias_names /\ read name = Raise (Interrupt msg)) ->
   exists name msg, name ∈ alias_names /\ read name = Raise (Interrupt msg) /\
     guarded_round read conversation_history = Raise (Interrupt msg)) /\
  ((forall name msg, name ∈ alias_names -> read name <> Raise (Interrupt msg)) ->
   exists result, guarded_round read conversation_history = Ok result).
Proof.
  unfold guarded_round. change (OD.keys agents) with alias_names.
  generalize ([] : list chat_message, conversation_history,
              [] : list (string * string)).
  induction alias_names as [|name names IH]; intros acc.
  - split.
    + intros (name & msg & Hin & _). by apply elem_of_nil in Hin.
    + intros _. by eexists.
  - cbn [foldl].
    destruct (guarded_collect_cases read acc name)
      as [(acc' & -> & Hnone)|(msg & Hread & ->)].
    + destruct (IH acc') as [IH1 IH2]. split.
      * intros (n & msg & Hin & Hn).
        apply elem_of_cons in Hin as [->|Hin]; [by apply Hnone in Hn|].
        destruct IH1 as (n' & msg' & Hin' & Hn' & Hfold); [by eauto|].
        exists n', msg'. split; [by right | done].
      * intros Hall. apply IH2. intros n msg Hin. apply Hall. by right.
    + rewrite guarded_fold_raised. split.
      * intros _. exists name, msg. split; [by left | done].
      * intros Hall. exfalso. by apply (Hall name msg); [left|].
Qed.

(** Sam's call is interrupted. *)
Lemma interrupt_leaves_the_round_witness :
  exists name msg,
    name ∈ alias_names /\ interrupted name = Raise (Interrupt msg) /\
    guarded_round interrupted ["You: hi"] = Raise (Interrupt msg).
Proof.
  apply (interrupt_leaves_the_round interrupted ["You: hi"]).
  exists "Sam", "KeyboardInterrupt". split; [right; by left | reflexivity].
Defined.
